(** * The HOOBS bridge orchestrator ([bridge/server.js]) and its command
    line module, embedded in Rocq.

    JavaScript objects become records whose optional properties are
    [option]s ([None] is [undefined]); an object used as a dictionary with
    lookups only is a [gmap]; a dictionary whose key order is observed is an
    association list.  Every call into a collaborator the orchestrator does
    not own (logger, parent process, persistence engine, protocol engine,
    plugin instances) is recorded, in program order, in the [effects] trace
    of the server state. *)

From Stdlib Require Import ZArith List String Ascii Bool Lia.
From stdpp Require Import base option list strings gmap.
Import ListNotations.

Local Open Scope string_scope.
Local Open Scope list_scope.

(** ** JavaScript values the orchestrator relies on *)

Module JS.

(** Exceptions that the modelled code can raise. *)
Inductive exn : Type :=
| TypeError      (* property read on [undefined] or [null] *)
| OnceViolation  (* hap-nodejs [once]: the callback was already called *)
| EngineError.   (* an [Error] the protocol engine throws at a call *)

Inductive result (A : Type) : Type :=
| Ok (a : A)
| Throw (e : exn).
Arguments Ok {A} a.
Arguments Throw {A} e.

#[export] Instance result_ret : MRet result := fun A a => Ok a.
#[export] Instance result_bind : MBind result := fun A B f m =>
  match m with Ok a => f a | Throw e => Throw e end.

(** [String(v)] for a value that is a string or [undefined]. *)
Definition to_string (v : option string) : string :=
  match v with Some s => s | None => "undefined" end.

(** Truthiness of a string-or-undefined value: [undefined] and the empty
    string are falsy. *)
Definition truthy (v : option string) : bool :=
  match v with Some (String _ _) => true | _ => false end.

(** [v || d] for a string-or-undefined [v] and a string [d]. *)
Definition or_else (v : option string) (d : string) : string :=
  match v with Some (String c s) => String c s | _ => d end.

(** [v === s] where [s] is a string. *)
Definition strict_eq (v : option string) (s : string) : bool :=
  match v with Some t => bool_decide (t = s) | None => false end.

(** [o.p] where [o] may be [undefined]: reading a property of [undefined]
    throws. *)
Definition prop {O A} (p : O -> A) (o : option O) : result A :=
  match o with Some x => Ok (p x) | None => Throw TypeError end.

(** [s.toUpperCase()] on the ASCII range. *)
Definition upper_ascii (c : ascii) : ascii :=
  let n := nat_of_ascii c in
  if (97 <=? n)%nat && (n <=? 122)%nat then ascii_of_nat (n - 32) else c.

Fixpoint toUpperCase (s : string) : string :=
  match s with
  | EmptyString => EmptyString
  | String c r => String (upper_ascii c) (toUpperCase r)
  end.

(** [s.indexOf(".") !== -1]. *)
Fixpoint has_dot (s : string) : bool :=
  match s with
  | EmptyString => false
  | String c r => if Ascii.eqb c "." then true else has_dot r
  end.

(** The characters of [s] up to its first ["."] (or its end). *)
Fixpoint upto_dot (s : string) : string :=
  match s with
  | EmptyString => EmptyString
  | String c r => if Ascii.eqb c "." then EmptyString else String c (upto_dot r)
  end.

(** What follows the first ["."] of [s]; [None] when [s] has none. *)
Fixpoint after_dot (s : string) : option string :=
  match s with
  | EmptyString => None
  | String c r => if Ascii.eqb c "." then Some r else after_dot r
  end.

(** [s.split(".")[1]]: the second ["."]-separated piece of [s], which is
    [undefined] when [s] has no ["."]. *)
Definition split_dot_1 (s : string) : option string :=
  upto_dot <$> after_dot s.

End JS.
Import JS.

Definition dquote : string := String (ascii_of_nat 34) EmptyString.

(** ** Configuration document *)

Record Ports : Type := { start : Z; end_ : Z }.

Record BridgeConfig : Type := {
  bridge_name : option string;
  username : option string;
  pin : option string;
  bridge_port : option Z;
  setupID : option string;
  manufacturer : option string;
  model : option string
}.

(** An element of [config.accessories] or [config.platforms]. *)
Record ConfigObject : Type := {
  accessory : option string;
  platform : option string;
  entry_name : option string;
  uuid_base : option string
}.

(** A list element, which JavaScript allows to be [undefined] or [null]
    ([None]). *)
Definition entry : Type := option ConfigObject.

Record Config : Type := {
  bridge : option BridgeConfig;
  accessories : option (list entry);
  platforms : option (list entry);
  plugins : option (list string);
  ports : option Ports;
  mdns : option string
}.

Definition set_ports (p : option Ports) (c : Config) : Config :=
  {| bridge := bridge c; accessories := accessories c; platforms := platforms c;
     plugins := plugins c; ports := p; mdns := mdns c |}.

Definition set_bridge (b : option BridgeConfig) (c : Config) : Config :=
  {| bridge := b; accessories := accessories c; platforms := platforms c;
     plugins := plugins c; ports := ports c; mdns := mdns c |}.

Definition set_accessories (l : option (list entry)) (c : Config) : Config :=
  {| bridge := bridge c; accessories := l; platforms := platforms c;
     plugins := plugins c; ports := ports c; mdns := mdns c |}.

Definition set_platforms (l : option (list entry)) (c : Config) : Config :=
  {| bridge := bridge c; accessories := accessories c; platforms := l;
     plugins := plugins c; ports := ports c; mdns := mdns c |}.

Definition set_username (u : option string) (b : BridgeConfig) : BridgeConfig :=
  {| bridge_name := bridge_name b; username := u; pin := pin b;
     bridge_port := bridge_port b; setupID := setupID b;
     manufacturer := manufacturer b; model := model b |}.

Definition default_username : string := "CC:22:3D:E3:CE:30".
Definition default_pin : string := "031-45-154".

(** The object literal [loadConfig] returns when it cannot read the file. *)
Definition default_config : Config :=
  {| bridge := Some {| bridge_name := Some "HOOBS";
                       username := Some default_username;
                       pin := Some default_pin;
                       bridge_port := None; setupID := None;
                       manufacturer := None; model := None |};
     accessories := None; platforms := None; plugins := None;
     ports := None; mdns := None |}.

(** ** Accessories and plugin instances *)

(** A [Platform] accessory (the wrapper dynamic platforms register, cache and
    publish externally). *)
Record PlatformAccessory : Type := {
  displayName : string;
  UUID : string;
  associatedPlugin : option string;
  associatedPlatform : option string;
  category : Z
}.

(** An element of [cachedPlatformAccessories]: plugins push arbitrary
    objects, so an element may fail [instanceof Platform]. *)
Inductive cached : Type :=
| IsPlatform (a : PlatformAccessory)
| NotPlatform.

(** What [getServices()] of an accessory instance returns, after the falsy
    elements are filtered out. *)
Inductive service : Type :=
| TypedService   (* [instanceof Service] *)
| PlainService.  (* legacy service description *)

Record AccessoryInstance : Type := {
  instance_name : option string;
  instance_uuid_base : option string;
  getServices : list service;
  getControllers : nat
}.

(** Accessories of the protocol engine, by the way they were obtained. *)
Inductive hap_accessory : Type :=
| ParsedAccessory (display : option string)
| NewAccessory (display : option string) (uuid_seed : string)
| Associated (a : PlatformAccessory).

(** When a platform instance invokes the callback of [accessories(cb)]. *)
Inductive Discovery : Type :=
| Immediate (found : list AccessoryInstance)  (* before [accessories] returns *)
| Deferred.                                    (* at some later turn, or never *)

(** A platform instance, by what the orchestrator observes of it. *)
Record PlatformInstance : Type := {
  instance_id : string;
  configureAccessory : bool;           (* the method is defined *)
  configurationRequestHandler : bool;  (* the method is defined *)
  discovery : Discovery
}.

(** The plugin API after the plugins have registered their constructors. *)
Record API : Type := {
  api_accessory : gmap string AccessoryInstance;
  api_platform : gmap string PlatformInstance;
  dynamicPlatforms : list (string * PlatformInstance)
}.

(** ** Effects *)

Inductive level : Type := Info | Warn | Error.

Record PublishInfo : Type := {
  pub_username : string;
  pub_port : Z;
  pub_pincode : string;
  pub_category : option Z;   (* [None]: [Categories.BRIDGE] *)
  pub_setupID : option string;
  pub_mdns : option string
}.

Inductive effect : Type :=
| Log (l : level) (msg : string)                  (* [internal.info/warn/error] *)
| PluginLog (prefix : option string) (msg : string)
| Send (event : string) (data : option string)    (* [process.send] *)
| Emit (event : string)                           (* [api.emit] *)
| PersistSet (items : list cached)                (* [persist.setItemSync] *)
| ConfigWrite (c : Config)                        (* [writeFileSync] *)
| Construct (i : PlatformInstance)                (* [new init(...)] *)
| Configure (i : PlatformInstance) (a : PlatformAccessory)
| Discover (i : PlatformInstance) (callback : nat)
| BridgeAdd (a : option hap_accessory)            (* [addBridgedAccessory] *)
| BridgeAddAccessories (l : list hap_accessory)   (* [addBridgedAccessories] *)
| BridgeRemoveAccessories (l : list hap_accessory)
| BridgeAddService
| SetCharacteristic (c : string) (v : option string)
| BridgePublish (info : PublishInfo)
| BridgeUnpublish
| AccessoryPublish (a : PlatformAccessory) (info : PublishInfo)
| AccessoryUnpublish (a : PlatformAccessory)
| SetupURI
| ExitAfter (ms : Z) (code : Z).

Definition is_BridgePublish (e : effect) : bool :=
  match e with BridgePublish _ => true | _ => false end.

Definition is_PersistSet (e : effect) : bool :=
  match e with PersistSet _ => true | _ => false end.

Definition is_BridgeUnpublish (e : effect) : bool :=
  match e with BridgeUnpublish => true | _ => false end.

Definition is_shutdown (e : effect) : bool :=
  match e with Emit ev => bool_decide (ev = "shutdown") | _ => false end.

Definition count (p : effect -> bool) (t : list effect) : nat :=
  length (filter (fun e => p e = true) t).

(** ** Server state *)

(** The closure [loadPlatformAccessories] wraps in [once]. *)
Record Callback : Type := {
  cb_logger : option string;
  cb_platformType : option string;
  cb_called : bool
}.

Record Server : Type := {
  api : API;
  config : Config;
  cachedPlatformAccessories : list cached;
  removeOrphans : bool;
  externalPorts : option Ports;
  nextExternalPort : option Z;
  activeDynamicPlugins : gmap string PlatformInstance;
  configurablePlatformPlugins : gmap string PlatformInstance;
  publishedAccessories : list (string * PlatformAccessory);
  asyncCalls : Z;
  asyncWait : bool;
  callbacks : list Callback;
  package_version : string;
  effects : list effect
}.

Definition with_config (c : Config) (s : Server) : Server :=
  {| api := api s; config := c;
     cachedPlatformAccessories := cachedPlatformAccessories s;
     removeOrphans := removeOrphans s; externalPorts := externalPorts s;
     nextExternalPort := nextExternalPort s;
     activeDynamicPlugins := activeDynamicPlugins s;
     configurablePlatformPlugins := configurablePlatformPlugins s;
     publishedAccessories := publishedAccessories s;
     asyncCalls := asyncCalls s; asyncWait := asyncWait s;
     callbacks := callbacks s; package_version := package_version s;
     effects := effects s |}.

Definition with_cached (l : list cached) (s : Server) : Server :=
  {| api := api s; config := config s;
     cachedPlatformAccessories := l;
     removeOrphans := removeOrphans s; externalPorts := externalPorts s;
     nextExternalPort := nextExternalPort s;
     activeDynamicPlugins := activeDynamicPlugins s;
     configurablePlatformPlugins := configurablePlatformPlugins s;
     publishedAccessories := publishedAccessories s;
     asyncCalls := asyncCalls s; asyncWait := asyncWait s;
     callbacks := callbacks s; package_version := package_version s;
     effects := effects s |}.

Definition with_nextExternalPort (p : option Z) (s : Server) : Server :=
  {| api := api s; config := config s;
     cachedPlatformAccessories := cachedPlatformAccessories s;
     removeOrphans := removeOrphans s; externalPorts := externalPorts s;
     nextExternalPort := p;
     activeDynamicPlugins := activeDynamicPlugins s;
     configurablePlatformPlugins := configurablePlatformPlugins s;
     publishedAccessories := publishedAccessories s;
     asyncCalls := asyncCalls s; asyncWait := asyncWait s;
     callbacks := callbacks s; package_version := package_version s;
     effects := effects s |}.

Definition with_active (m : gmap string PlatformInstance) (s : Server) : Server :=
  {| api := api s; config := config s;
     cachedPlatformAccessories := cachedPlatformAccessories s;
     removeOrphans := removeOrphans s; externalPorts := externalPorts s;
     nextExternalPort := nextExternalPort s;
     activeDynamicPlugins := m;
     configurablePlatformPlugins := configurablePlatformPlugins s;
     publishedAccessories := publishedAccessories s;
     asyncCalls := asyncCalls s; asyncWait := asyncWait s;
     callbacks := callbacks s; package_version := package_version s;
     effects := effects s |}.

Definition with_configurable (m : gmap string PlatformInstance) (s : Server) : Server :=
  {| api := api s; config := config s;
     cachedPlatformAccessories := cachedPlatformAccessories s;
     removeOrphans := removeOrphans s; externalPorts := externalPorts s;
     nextExternalPort := nextExternalPort s;
     activeDynamicPlugins := activeDynamicPlugins s;
     configurablePlatformPlugins := m;
     publishedAccessories := publishedAccessories s;
     asyncCalls := asyncCalls s; asyncWait := asyncWait s;
     callbacks := callbacks s; package_version := package_version s;
     effects := effects s |}.

Definition with_published (l : list (string * PlatformAccessory)) (s : Server) : Server :=
  {| api := api s; config := config s;
     cachedPlatformAccessories := cachedPlatformAccessories s;
     removeOrphans := removeOrphans s; externalPorts := externalPorts s;
     nextExternalPort := nextExternalPort s;
     activeDynamicPlugins := activeDynamicPlugins s;
     configurablePlatformPlugins := configurablePlatformPlugins s;
     publishedAccessories := l;
     asyncCalls := asyncCalls s; asyncWait := asyncWait s;
     callbacks := callbacks s; package_version := package_version s;
     effects := effects s |}.

Definition with_asyncCalls (n : Z) (s : Server) : Server :=
  {| api := api s; config := config s;
     cachedPlatformAccessories := cachedPlatformAccessories s;
     removeOrphans := removeOrphans s; externalPorts := externalPorts s;
     nextExternalPort := nextExternalPort s;
     activeDynamicPlugins := activeDynamicPlugins s;
     configurablePlatformPlugins := configurablePlatformPlugins s;
     publishedAccessories := publishedAccessories s;
     asyncCalls := n; asyncWait := asyncWait s;
     callbacks := callbacks s; package_version := package_version s;
     effects := effects s |}.

Definition with_asyncWait (b : bool) (s : Server) : Server :=
  {| api := api s; config := config s;
     cachedPlatformAccessories := cachedPlatformAccessories s;
     removeOrphans := removeOrphans s; externalPorts := externalPorts s;
     nextExternalPort := nextExternalPort s;
     activeDynamicPlugins := activeDynamicPlugins s;
     configurablePlatformPlugins := configurablePlatformPlugins s;
     publishedAccessories := publishedAccessories s;
     asyncCalls := asyncCalls s; asyncWait := b;
     callbacks := callbacks s; package_version := package_version s;
     effects := effects s |}.

Definition with_callbacks (l : list Callback) (s : Server) : Server :=
  {| api := api s; config := config s;
     cachedPlatformAccessories := cachedPlatformAccessories s;
     removeOrphans := removeOrphans s; externalPorts := externalPorts s;
     nextExternalPort := nextExternalPort s;
     activeDynamicPlugins := activeDynamicPlugins s;
     configurablePlatformPlugins := configurablePlatformPlugins s;
     publishedAccessories := publishedAccessories s;
     asyncCalls := asyncCalls s; asyncWait := asyncWait s;
     callbacks := l; package_version := package_version s;
     effects := effects s |}.

(** Append one effect to the trace. *)
Definition emit (e : effect) (s : Server) : Server :=
  {| api := api s; config := config s;
     cachedPlatformAccessories := cachedPlatformAccessories s;
     removeOrphans := removeOrphans s; externalPorts := externalPorts s;
     nextExternalPort := nextExternalPort s;
     activeDynamicPlugins := activeDynamicPlugins s;
     configurablePlatformPlugins := configurablePlatformPlugins s;
     publishedAccessories := publishedAccessories s;
     asyncCalls := asyncCalls s; asyncWait := asyncWait s;
     callbacks := callbacks s; package_version := package_version s;
     effects := effects s ++ [e] |}.

(** ** [loadConfig] *)

(** What the process finds at [User.configPath()]: no file, a file that
    [JSON.parse] rejects, a document that is not an object ([null], a
    number, a string, a boolean, an array), an object whose [ports] member
    is [null] ([c] holds its other members), or an object whose [ports]
    member is absent or is itself an object. *)
Inductive ConfigFile : Type :=
| Missing
| Unparsable
| NotAnObject
| PortsNull (c : Config)
| Document (c : Config).

(** One character of the class [[0-9A-F]]. *)
Definition is_upper_hex (c : ascii) : bool :=
  let n := nat_of_ascii c in
  ((48 <=? n)%nat && (n <=? 57)%nat) || ((65 <=? n)%nat && (n <=? 70)%nat).

(** [([0-9A-F]{2}:){n}] at the start of [s]; the rest of [s] on a match. *)
Fixpoint hex_pairs_colon (n : nat) (s : string) : option string :=
  match n with
  | O => Some s
  | S n' =>
      match s with
      | String a (String b (String c r)) =>
          if is_upper_hex a && is_upper_hex b && Ascii.eqb c ":"
          then hex_pairs_colon n' r else None
      | _ => None
      end
  end.

(** [/^([0-9A-F]{2}:){5}([0-9A-F]{2})$/.test(s)]. *)
Definition username_test (s : string) : bool :=
  match hex_pairs_colon 5 s with
  | Some (String a (String b EmptyString)) => is_upper_hex a && is_upper_hex b
  | _ => false
  end.

Definition loadConfig (configPath : string) (f : ConfigFile)
  : list effect * result Config :=
  match f with
  | Missing =>
      ([Log Warn ("config.json " +:+ dquote +:+ configPath +:+ dquote +:+ " not found.")],
       Ok default_config)
  | Unparsable =>
      ([Log Error "There was a problem reading your config.json file."],
       Ok default_config)
  | NotAnObject =>
      (* [null.ports], or [undefined.username] for the other values *)
      ([], Throw TypeError)
  | PortsNull _ =>
      (* [config.ports !== undefined] holds of [null]; [null.start] *)
      ([], Throw TypeError)
  | Document c =>
      let '(log, c) :=
        match ports c with
        | Some p =>
            if (start p >? end_ p)%Z
            then ([Log Error "Invalid port pool configuration. End should be greater than or equal to start."],
                  set_ports None c)
            else ([], c)
        | None => ([], c)
        end in
      match bridge c with
      | None => (log, Throw TypeError)   (* [config.bridge.username] *)
      | Some b =>
          if username_test (to_string (username b)) then (log, Ok c)
          else (log ++ [Log Error ("Not a valid username: " +:+ dquote +:+
                                   to_string (username b) +:+ dquote +:+ ".")],
                Ok (set_bridge (Some (set_username (Some default_username) b)) c))
      end
  end.

(** ** The constructor *)

Record Options : Type := {
  opt_config : option Config;
  opt_removeOrphans : bool
}.

(** The surroundings the constructor reads. *)
Record Host : Type := {
  host_configPath : string;
  host_configFile : ConfigFile;
  host_cachedAccessories : option (list PlatformAccessory);  (* [persist.getItem] *)
  host_api : API;                                           (* after [loadPlugins] *)
  host_version : string
}.

Definition loadCachedPlatformAccessories (h : Host) : list cached :=
  match host_cachedAccessories h with
  | Some l => map IsPlatform l     (* [Platform.deserialize] *)
  | None => []
  end.

(** The fields the constructor sets, once the configuration is known.
    [asyncCalls] and [asyncWait] are first assigned by [run]. *)
Definition init_Server (c : Config) (removeOrphans : bool) (h : Host)
    (log : list effect) : Server :=
  {| api := host_api h; config := c;
     cachedPlatformAccessories := loadCachedPlatformAccessories h;
     removeOrphans := removeOrphans;
     externalPorts := ports c;
     nextExternalPort := None;
     activeDynamicPlugins := ∅;
     configurablePlatformPlugins := ∅;
     publishedAccessories := [];
     asyncCalls := 0; asyncWait := false; callbacks := [];
     package_version := host_version h;
     effects := log |}.

Definition new_Server (opts : Options) (h : Host) : result Server :=
  match opt_config opts with
  | Some c => Ok (init_Server c (opt_removeOrphans opts) h [])
  | None =>
      let '(log, r) := loadConfig (host_configPath h) (host_configFile h) in
      c ← r; Ok (init_Server c (opt_removeOrphans opts) h log)
  end.

(** ** Cache persistence and reconciliation *)

Definition updateCachedAccessories (st : Server) : Server :=
  emit (PersistSet (cachedPlatformAccessories st)) st.

(** The instance lookup of [configCachedPlatformAccessories]: by
    [plugin.platform], then by bare [platform]. *)
Definition find_instance (st : Server) (a : PlatformAccessory)
  : option PlatformInstance :=
  match activeDynamicPlugins st
          !! (to_string (associatedPlugin a) +:+ "." +:+ to_string (associatedPlatform a)) with
  | Some i => Some i
  | None => activeDynamicPlugins st !! to_string (associatedPlatform a)
  end.

(** The loop of [configCachedPlatformAccessories] over the accessories that
    remain, with the [verifiedAccessories] built so far. *)
Fixpoint reconcile (l verified : list cached) (st : Server)
  : list cached * Server :=
  match l with
  | [] => (verified, st)
  | NotPlatform :: rest =>
      reconcile rest verified (emit (Send "error_log" (Some "Unexpected Accessory")) st)
  | IsPlatform a :: rest =>
      match find_instance st a with
      | Some i =>
          reconcile rest (verified ++ [IsPlatform a])
            (emit (BridgeAdd (Some (Associated a))) (emit (Configure i a) st))
      | None =>
          let st := emit (Send "error_log"
                      (Some ("Failed to find plugin to handle accessory " +:+ displayName a))) st in
          if removeOrphans st
          then reconcile rest verified
                 (emit (Send "info_log"
                    (Some ("Removing orphaned accessory " +:+ displayName a))) st)
          else reconcile rest (verified ++ [IsPlatform a])
                 (emit (BridgeAdd (Some (Associated a))) st)
      end
  end.

Definition configCachedPlatformAccessories (st : Server) : Server :=
  let '(verified, st) := reconcile (cachedPlatformAccessories st) [] st in
  with_cached verified st.

(** An orphan: a cached [Platform] accessory none of whose two keys has an
    active dynamic-platform instance. *)
Definition orphan (st : Server) (a : PlatformAccessory) : Prop :=
  find_instance st a = None.

(** ** Publishing the bridge *)

Definition publish (st : Server) : Server :=
  let bridgeConfig := bridge (config st) in    (* [this.config.bridge || {}] *)
  let field {A} (f : BridgeConfig -> option A) : option A := bridgeConfig ≫= f in
  let st := emit (SetCharacteristic "Manufacturer"
                    (Some (or_else (field manufacturer) "HOOBS"))) st in
  let st := emit (SetCharacteristic "Model"
                    (Some (or_else (field model) "HOOBS"))) st in
  let st := emit (SetCharacteristic "SerialNumber" (field username)) st in
  let st := emit (SetCharacteristic "FirmwareRevision"
                    (Some (package_version st))) st in
  let publishInfo :=
    {| pub_username := or_else (field username) default_username;
       pub_port := default 0%Z (field bridge_port);
       pub_pincode := or_else (field pin) default_pin;
       pub_category := None;
       pub_setupID :=
         match field setupID with
         | Some s => if truthy (Some s) && (String.length s =? 4)%nat
                     then Some s else None
         | None => None
         end;
       pub_mdns := mdns (config st) |} in
  let st := emit (BridgePublish publishInfo) st in
  let st := emit SetupURI st in               (* [printSetupInfo] *)
  emit (Send "running" None) st.

(** ** The accessory factory *)

(** [a || b] on string-or-undefined values. *)
Definition or_opt (a b : option string) : option string :=
  if truthy a then a else b.

Definition createAccessory (accessoryInstance : AccessoryInstance)
    (displayName accessoryType uuidBase : option string)
  : option hap_accessory :=
  match getServices accessoryInstance, getControllers accessoryInstance with
  | [], O => None
  | TypedService :: _, _ =>
      Some (NewAccessory displayName
              (to_string accessoryType +:+ ":" +:+ to_string (or_opt uuidBase displayName)))
  | _, _ => Some (ParsedAccessory displayName)
  end.

(** ** Loading plugins' accessories and platforms *)

(** The [once] wrapper of a closure after its first call. *)
Definition fired (cb : Callback) : Callback :=
  {| cb_logger := cb_logger cb; cb_platformType := cb_platformType cb;
     cb_called := true |}.

(** The loop of the callback [loadPlatformAccessories] hands to the
    platform.  Unlike [loadAccessories], it passes what [createAccessory]
    returns to [bridge.addBridgedAccessory] unguarded; the engine reads a
    property of its argument, so the call throws when that is [undefined],
    and the loop ends there.  For an accessory object the call is taken to
    return, here as in [loadAccessories] and in the reconciliation of the
    cache: what the engine checks of an accessory is not part of these
    sources.  The result is the state the loop leaves and the exception,
    if any. *)
Fixpoint addFoundAccessories (cb : Callback) (foundAccessories : list AccessoryInstance)
    (st : Server) : Server * option exn :=
  match foundAccessories with
  | [] => (st, None)
  | accessoryInstance :: rest =>
      let st := emit (PluginLog (cb_logger cb)
                   ("Initializing platform accessory " +:+ dquote +:+
                    to_string (instance_name accessoryInstance) +:+ dquote +:+ "..."))
                 st in
      let accessory := createAccessory accessoryInstance
                         (instance_name accessoryInstance)
                         (cb_platformType cb)
                         (instance_uuid_base accessoryInstance) in
      let st := emit (BridgeAdd accessory) st in
      match accessory with
      | Some _ => addFoundAccessories cb rest st
      | None => (st, Some TypeError)
      end
  end.

(** The callback [loadPlatformAccessories] hands to the platform, behind
    its [once] guard.  [id] is the position of the closure in [callbacks].
    No closure has an identifier outside of [callbacks].  The result is the
    state the call leaves, and the exception it raises into the platform's
    code, if any: the guard throws before the body runs; an exception of
    the loop leaves the counter decremented and skips the publish test. *)
Definition discovered (id : nat) (foundAccessories : list AccessoryInstance)
    (st : Server) : Server * option exn :=
  match callbacks st !! id with
  | None => (st, None)
  | Some cb =>
      if cb_called cb then (st, Some OnceViolation)
      else
        let st := with_callbacks (<[id := fired cb]> (callbacks st)) st in
        let st := with_asyncCalls (asyncCalls st - 1) st in
        match addFoundAccessories cb foundAccessories st with
        | (st, Some e) => (st, Some e)
        | (st, None) =>
            if (asyncCalls st =? 0)%Z && negb (asyncWait st)
            then (publish st, None) else (st, None)
        end
  end.

(** A platform that invokes the callback before [accessories] returns is
    taken not to catch what the callback throws. *)
Definition loadPlatformAccessories (instance : PlatformInstance)
    (logger platformType : option string) (st : Server) : result Server :=
  let st := with_asyncCalls (asyncCalls st + 1) st in
  let id := length (callbacks st) in
  let st := with_callbacks
              (callbacks st ++ [{| cb_logger := logger;
                                   cb_platformType := platformType;
                                   cb_called := false |}]) st in
  let st := emit (Discover instance id) st in
  match discovery instance with
  | Immediate found =>
      match discovered id found st with
      | (st, None) => Ok st
      | (_, Some e) => Throw e
      end
  | Deferred => Ok st
  end.

Fixpoint loadAccessories (l : list entry) (st : Server) : result Server :=
  match l with
  | [] => Ok st
  | e :: rest =>
      type ← prop accessory e;
      match type ≫= (api_accessory (api st) !!.) with
      | None =>
          loadAccessories rest
            (emit (Log Warn ("Your config.json is requesting the accessory " +:+ dquote +:+
                             to_string type +:+ dquote +:+
                             " which has not been published by any installed plugins.")) st)
      | Some instance =>
          name ← prop entry_name e;
          base ← prop uuid_base e;
          match createAccessory instance name type base with
          | Some a => loadAccessories rest (emit (BridgeAdd (Some a)) st)
          | None => loadAccessories rest st
          end
      end
  end.

Fixpoint loadPlatforms (l : list entry) (st : Server) : result Server :=
  match l with
  | [] => Ok st
  | e :: rest =>
      type ← prop platform e;
      match type ≫= (api_platform (api st) !!.) with
      | None =>
          loadPlatforms rest
            (emit (Log Warn ("Your config.json is requesting the platform " +:+ dquote +:+
                             to_string type +:+ dquote +:+
                             " which has not been published by any installed plugins.")) st)
      | Some instance =>
          name ← prop entry_name e;
          let logger := or_opt name type in
          let st := emit (Construct instance) st in
          st ← (if negb (configureAccessory instance)
                then loadPlatformAccessories instance logger type st
                else Ok (with_active
                           (<[to_string type := instance]> (activeDynamicPlugins st)) st));
          let st :=
            if configurationRequestHandler instance
            then with_configurable
                   (<[to_string type := instance]> (configurablePlatformPlugins st)) st
            else st in
          loadPlatforms rest st
      end
  end.

(** The API registers under [dynamicPlatforms] only platforms that
    implement [configureAccessory]. *)
Definition loadDynamicPlatforms (st : Server) : Server :=
  fold_left (fun st '(dynamicPluginName, instance) =>
    match activeDynamicPlugins st !! dynamicPluginName,
          activeDynamicPlugins st !! to_string (split_dot_1 dynamicPluginName) with
    | None, None =>
        let st := emit (Send "info_log" (Some ("Load " +:+ dynamicPluginName))) st in
        let st := emit (Construct instance) st in
        let st := with_active
                    (<[dynamicPluginName := instance]> (activeDynamicPlugins st)) st in
        if configurationRequestHandler instance
        then with_configurable
               (<[dynamicPluginName := instance]> (configurablePlatformPlugins st)) st
        else st
    | _, _ => st
    end) (dynamicPlatforms (api st)) st.

(** ** [run] *)

Definition run (st : Server) : result Server :=
  let st := with_asyncCalls 0 st in
  let st := with_asyncWait true st in
  st ← match platforms (config st) with
       | Some l => loadPlatforms l st
       | None => Ok st
       end;
  st ← match accessories (config st) with
       | Some l => loadAccessories l st
       | None => Ok st
       end;
  let st := loadDynamicPlatforms st in
  let st := configCachedPlatformAccessories st in
  (* the setup manager is handed [configurablePlatformPlugins], and its
     service is added to the bridge *)
  let st := emit BridgeAddService st in
  let st := with_asyncWait false st in
  let st := if (asyncCalls st =? 0)%Z then publish st else st in
  let st := emit (Emit "didFinishLaunching") st in
  Ok (emit (Send "api_launched" None) st).

(** A later turn of the event loop in which a platform invokes the callback
    it was given.  An exception is raised into the platform's code; the
    orchestrator goes on from the state the call left. *)
Definition deliver (st : Server) (ev : nat * list AccessoryInstance) : Server :=
  fst (discovered (fst ev) (snd ev) st).

Definition publishes (st : Server) : nat := count is_BridgePublish (effects st).

(** Closures of [loadPlatformAccessories] not yet invoked. *)
Definition pending (st : Server) : nat :=
  length (filter (fun cb => cb_called cb = false) (callbacks st)).

(** ** External accessories *)

(** [this.publishedAccessories[address]]: the object is only written at
    keys it does not have, so insertion order is key order. *)
Fixpoint published_at (address : string) (l : list (string * PlatformAccessory))
  : option PlatformAccessory :=
  match l with
  | [] => None
  | (k, a) :: rest => if bool_decide (k = address) then Some a else published_at address rest
  end.

(** The port an external accessory is given (the first statements of the
    loop body of [handlePublishExternalAccessories]).  [undefined > end] is
    false. *)
Definition allocate_port (st : Server) : Z * Server :=
  match externalPorts st with
  | None => (0%Z, st)
  | Some pool =>
      match nextExternalPort st with
      | Some next =>
          if (next >? end_ pool)%Z
          then (0%Z, emit (Log Info "External port pool ran out of ports. Fallback to random assign.") st)
          else (next, with_nextExternalPort (Some (next + 1)%Z) st)
      | None => (start pool, with_nextExternalPort (Some (start pool + 1)%Z) st)
      end
  end.

Section Address.

(** [Crypto.createHash("sha1").update(data).digest("hex")]. *)
Variable sha1_hex : string -> string.

(** [s[i]] as the replacement text: the character, or ["undefined"]. *)
Definition char_at (s : string) (i : nat) : string :=
  match String.get i s with
  | Some c => String c EmptyString
  | None => "undefined"
  end.

(** [pattern.replace(/[x]/g, () => { i += 1; return s[i]; })], where [i]
    is the index the next replacement reads. *)
Fixpoint replace_x (pattern s : string) (i : nat) : string :=
  match pattern with
  | EmptyString => EmptyString
  | String c r =>
      if Ascii.eqb c "x" then char_at s i +:+ replace_x r s (S i)
      else String c (replace_x r s i)
  end.

Definition generateAddress (data : string) : string :=
  let s := sha1_hex data in
  toUpperCase (replace_x "xx:xx:xx:xx:xx:xx" s 0).

(** One iteration of the loop of [handlePublishExternalAccessories]; the
    first component is the value of [accessoryPort]. *)
Definition publishExternalAccessory (st : Server) (accessory : PlatformAccessory)
  : Z * Server :=
  let '(accessoryPort, st) := allocate_port st in
  let advertiseAddress := generateAddress (UUID accessory) in
  match published_at advertiseAddress (publishedAccessories st) with
  | Some _ =>
      (accessoryPort,
       emit (Log Warn ("Accessory " +:+ displayName accessory +:+
                       "experienced an address collision.")) st)
  | None =>
      let st := with_published
                  (publishedAccessories st ++ [(advertiseAddress, accessory)]) st in
      (accessoryPort,
       emit (AccessoryPublish accessory
               {| pub_username := advertiseAddress;
                  pub_pincode := or_else (bridge (config st) ≫= pin) default_pin;
                  pub_category := Some (category accessory);
                  pub_port := accessoryPort;
                  pub_setupID := None;
                  pub_mdns := mdns (config st) |}) st)
  end.

(** The handler of [publishExternalAccessories], with the ports its
    iterations allocated, in order. *)
Fixpoint handlePublishExternalAccessories (st : Server)
    (accessories : list PlatformAccessory) : list Z * Server :=
  match accessories with
  | [] => ([], st)
  | accessory :: rest =>
      let '(p, st) := publishExternalAccessory st accessory in
      let '(ps, st) := handlePublishExternalAccessories st rest in
      (p :: ps, st)
  end.

(** Several [publishExternalAccessories] events of one run. *)
Fixpoint publishAll (st : Server) (events : list (list PlatformAccessory))
  : list Z * Server :=
  match events with
  | [] => ([], st)
  | accessories :: rest =>
      let '(ps, st) := handlePublishExternalAccessories st accessories in
      let '(qs, st) := publishAll st rest in
      (ps ++ qs, st)
  end.

End Address.

(** ** Teardown and the signal handlers of the command line module *)

Definition teardown (st : Server) : Server :=
  let st := updateCachedAccessories st in
  let st := emit BridgeUnpublish st in
  fold_left (fun st '(_, accessory) => emit (AccessoryUnpublish accessory) st)
            (publishedAccessories st) st.

Inductive signal : Type := SIGINT | SIGTERM.

Definition signal_name (s : signal) : string :=
  match s with SIGINT => "SIGINT" | SIGTERM => "SIGTERM" end.

Definition signal_number (s : signal) : Z :=
  match s with SIGINT => 2 | SIGTERM => 15 end.

(** The variables the handlers close over. *)
Record Cli : Type := {
  terminating : bool;
  server : Server
}.

Definition start_cli (srv : Server) : Cli :=
  {| terminating := false; server := srv |}.

(** The listener registered for each signal. *)
Definition on_signal (c : Cli) (s : signal) : Cli :=
  if terminating c then c
  else
    let srv := emit (Log Info ("Got " +:+ signal_name s +:+ ", shutting down Bridge...")) (server c) in
    let srv := teardown srv in
    let srv := emit (Emit "shutdown") srv in
    let srv := emit (ExitAfter 3000 (128 + signal_number s)) srv in
    {| terminating := true; server := srv |}.

(** The effects of one teardown sequence, from a server state. *)
Definition teardown_effects (s : signal) (srv : Server) : list effect :=
  [Log Info ("Got " +:+ signal_name s +:+ ", shutting down Bridge...");
   PersistSet (cachedPlatformAccessories srv);
   BridgeUnpublish]
  ++ map (fun '(_, a) => AccessoryUnpublish a) (publishedAccessories srv)
  ++ [Emit "shutdown"; ExitAfter 3000 (128 + signal_number s)].

(** ** The remote configuration channel *)

(** The [for ... in] loop of a [replace] branch: [Some] of the list with
    the first matching element replaced, [None] when [found] stays false. *)
Fixpoint replace_first (key : ConfigObject -> option string) (name : string)
    (targetName : option string) (config : entry) (l : list entry)
  : result (option (list entry)) :=
  match l with
  | [] => Ok None
  | e :: rest =>
      k ← prop key e;
      if strict_eq k name then Ok (Some (config :: rest))
      else if truthy targetName && strict_eq k (to_string targetName)
      then Ok (Some (config :: rest))
      else r ← replace_first key name targetName config rest; Ok (option_map (cons e) r)
  end.

(** One branch of [handleNewConfig]; the two branches differ in the list
    and in the property ([accessory] or [platform]) they compare. *)
Definition apply_config (key : ConfigObject -> option string)
    (l : option (list entry)) (name : option string) (replace : bool)
    (config : entry) : result (list entry) :=
  let l := default [] l in
  if negb replace then Ok (l ++ [config])
  else
    name ← prop id name;                      (* [name.indexOf] *)
    let targetName := if has_dot name then split_dot_1 name else None in
    r ← replace_first key name targetName config l;
    Ok (default (l ++ [config]) r).

Definition handleNewConfig (st : Server) (type name : option string)
    (replace : bool) (config' : entry) : result Server :=
  st ← (if strict_eq type "accessory" then
          l ← apply_config accessory (accessories (config st)) name replace config';
          Ok (with_config (set_accessories (Some l) (config st)) st)
        else if strict_eq type "platform" then
          l ← apply_config platform (platforms (config st)) name replace config';
          Ok (with_config (set_platforms (Some l) (config st)) st)
        else Ok st);
  Ok (emit (ConfigWrite (config st)) st).

(** The listener of the setup manager's [newConfig] event:
    [() => { this.handleNewConfig() }]. *)
Definition on_newConfig (st : Server) : result Server :=
  handleNewConfig st None None false None.

(** ** Plugins *)

(** A plugin of [Plugin.installed()], by what [loadPlugins] observes. *)
Record Plugin : Type := {
  plugin_name : string;      (* [plugin.name()] *)
  loadError : bool;          (* [plugin.loadError] is set before [load()] *)
  load : option string       (* the [stack] of the error [load()] throws *)
}.

(** [computeActivePluginList]: [undefined] without [config.plugins], else
    the object with [true] at every listed name. *)
Definition computeActivePluginList (c : Config) : option (gmap string bool) :=
  (fun l => fold_left (fun activePlugins n => <[n := true]> activePlugins) l ∅)
    <$> plugins c.

(** The variables of [loadPlugins]: the [plugins] object, the names whose
    [initializer(api)] was called (in call order), the log, and
    [foundOnePlugin]. *)
Record PluginLoad : Type := {
  loaded_plugins : gmap string Plugin;
  initialized : list string;
  plugin_log : list effect;
  foundOnePlugin : bool
}.

(** The body of the [forEach] of [loadPlugins]. *)
Definition loadPlugin (activePlugins : option (gmap string bool))
    (acc : PluginLoad) (plugin : Plugin) : PluginLoad :=
  let skipped :=
    match activePlugins with
    | Some m => negb (bool_decide (m !! plugin_name plugin = Some true))
    | None => false
    end in
  if skipped then acc
  else
    let '(log, failed) :=
      match load plugin with
      | Some stack =>
          (plugin_log acc ++
             [Log Error ("Error loading plugin " +:+ dquote +:+ plugin_name plugin +:+
                         dquote +:+ ".");
              Log Error stack],
           true)
      | None => (plugin_log acc, loadError plugin)
      end in
    if failed
    then {| loaded_plugins := loaded_plugins acc; initialized := initialized acc;
            plugin_log := log; foundOnePlugin := foundOnePlugin acc |}
    else {| loaded_plugins := <[plugin_name plugin := plugin]> (loaded_plugins acc);
            initialized := initialized acc ++ [plugin_name plugin];
            plugin_log := log ++ [Log Info ("Loaded plugin " +:+ dquote +:+
                                            plugin_name plugin +:+ dquote +:+ ".")];
            foundOnePlugin := true |}.

Definition loadPlugins (c : Config) (installed : list Plugin) : PluginLoad :=
  let acc := fold_left (loadPlugin (computeActivePluginList c)) installed
               {| loaded_plugins := ∅; initialized := []; plugin_log := [];
                  foundOnePlugin := false |} in
  if foundOnePlugin acc then acc
  else {| loaded_plugins := loaded_plugins acc; initialized := initialized acc;
          plugin_log := plugin_log acc ++ [Log Warn "No plugins found."];
          foundOnePlugin := false |}.

(** ** Registering and unregistering platform accessories *)

(** The engine's [addBridgedAccessories] and [removeBridgedAccessories]
    can throw ([removeBridgedAccessories], for one, when an accessory is
    not bridged).  The engine is not part of these sources: whether it
    rejects the call a handler makes is the handler's argument [rejected].
    The exception is raised into the plugin that emitted the event; the
    result of a handler is the state it leaves, and the exception. *)

(** The loop of [handleRegisterPlatformAccessories]: [hapAccessories] and
    the cache so far. *)
Fixpoint register_loop (accessories : list PlatformAccessory)
    (hapAccessories : list hap_accessory) (cache : list cached)
  : list hap_accessory * list cached :=
  match accessories with
  | [] => (hapAccessories, cache)
  | accessory :: rest =>
      register_loop rest (hapAccessories ++ [Associated accessory])
                    (cache ++ [IsPlatform accessory])
  end.

Definition handleRegisterPlatformAccessories (st : Server)
    (accessories : list PlatformAccessory) (rejected : bool)
  : Server * option exn :=
  let '(hapAccessories, cache) :=
    register_loop accessories [] (cachedPlatformAccessories st) in
  let st := with_cached cache st in
  let st := emit (BridgeAddAccessories hapAccessories) st in
  if rejected then (st, Some EngineError)
  else (updateCachedAccessories st, None).

Definition handleUpdatePlatformAccessories (st : Server) : Server :=
  updateCachedAccessories st.

(** [c.UUID] of a cached element; an element that is not a [Platform]
    accessory has none. *)
Definition cached_UUID (c : cached) : option string :=
  match c with
  | IsPlatform a => Some (UUID a)
  | NotPlatform => None
  end.

(** The inner loop of [handleUnregisterPlatformAccessories]: [splice] the
    first element with the given [UUID], then [break]. *)
Fixpoint splice_UUID (uuid : string) (cache : list cached) : list cached :=
  match cache with
  | [] => []
  | c :: rest =>
      if strict_eq (cached_UUID c) uuid then rest
      else c :: splice_UUID uuid rest
  end.

(** The outer loop.  A [Platform] accessory has its [associated]
    accessory. *)
Fixpoint unregister_loop (accessories : list PlatformAccessory)
    (hapAccessories : list hap_accessory) (cache : list cached)
  : list hap_accessory * list cached :=
  match accessories with
  | [] => (hapAccessories, cache)
  | accessory :: rest =>
      unregister_loop rest (hapAccessories ++ [Associated accessory])
                      (splice_UUID (UUID accessory) cache)
  end.

(** The cache is spliced before the engine is called; it is persisted only
    when the engine's call returns. *)
Definition handleUnregisterPlatformAccessories (st : Server)
    (accessories : list PlatformAccessory) (rejected : bool)
  : Server * option exn :=
  let '(hapAccessories, cache) :=
    unregister_loop accessories [] (cachedPlatformAccessories st) in
  let st := with_cached cache st in
  let st := emit (BridgeRemoveAccessories hapAccessories) st in
  if rejected then (st, Some EngineError)
  else (updateCachedAccessories st, None).

(** ** Uncaught exceptions in the command line module *)

(** The listener of [uncaughtException]; the second component is the
    signal [process.kill] sends to the process itself. *)
Definition on_uncaughtException (c : Cli) (stack : string) : Cli * option signal :=
  ({| terminating := terminating c;
      server := emit (Log Error stack) (server c) |},
   if terminating c then None else Some SIGTERM).

Inductive cli_event : Type :=
| Signal (s : signal)
| UncaughtException (stack : string).

(** The listeners over a sequence of events, with the signals sent by
    [process.kill] so far. *)
Definition cli_step (acc : Cli * list signal) (ev : cli_event) : Cli * list signal :=
  match ev with
  | Signal s => (on_signal (fst acc) s, snd acc)
  | UncaughtException stack =>
      let '(c, sent) := on_uncaughtException (fst acc) stack in
      (c, snd acc ++ match sent with Some s => [s] | None => [] end)
  end.

(** ** Notions the statements use *)

(** The port the [i]-th external publish request of a run is to receive
    from the pool [{start: s, end: e}] ([i] counted from 0). *)
Definition pool_port (s e : Z) (i : nat) : Z :=
  if (Z.of_nat i <? e - s + 1)%Z then (s + Z.of_nat i)%Z else 0%Z.

(** [nextExternalPort] after [k] requests were served from the pool
    [{start: s, end: e}]. *)
Definition next_after (s e : Z) (k : nat) : option Z :=
  match k with
  | O => None
  | S _ => Some (s + Z.min (Z.of_nat k) (e - s + 1))%Z
  end.

Definition is_AccessoryPublish (e : effect) : bool :=
  match e with AccessoryPublish _ _ => true | _ => false end.

(** Whether reconciliation keeps a cached element, for given active
    instances and orphan policy. *)
Definition kept (active : gmap string PlatformInstance) (removeOrphans : bool)
    (c : cached) : bool :=
  match c with
  | NotPlatform => false
  | IsPlatform a =>
      match active !! (to_string (associatedPlugin a) +:+ "." +:+ to_string (associatedPlatform a)),
            active !! to_string (associatedPlatform a) with
      | None, None => negb removeOrphans
      | _, _ => true
      end
  end.

(** The element test of the [replace] loops: the compared property equals
    [name], or equals the second ["."]-separated piece of [name] when
    [name] has a ["."] and that piece is not empty. *)
Definition name_matches (key : ConfigObject -> option string) (name : string)
    (e : entry) : bool :=
  match e with
  | None => false
  | Some o =>
      strict_eq (key o) name ||
      (has_dot name && truthy (split_dot_1 name) &&
       strict_eq (key o) (to_string (split_dot_1 name)))
  end.

(** How a [replace] request relates the list [l] before to the list [l']
    after: the first matching element is replaced in place; without a
    match the body is appended. *)
Definition replaced_or_appended (key : ConfigObject -> option string)
    (name : string) (body : entry) (l l' : list entry) : Prop :=
  (forall i e,
     l !! i = Some e -> name_matches key name e = true ->
     (forall j e', (j < i)%nat -> l !! j = Some e' -> name_matches key name e' = false) ->
     l' = <[i := body]> l /\ length l' = length l /\ l' !! i = Some body)
  /\ ((forall e, In e l -> name_matches key name e = false) -> l' = l ++ [body]).

(** [l] with its first element that satisfies [p] replaced by [config];
    [None] when no element satisfies [p]. *)
Fixpoint replace_where (p : entry -> bool) (config : entry) (l : list entry)
  : option (list entry) :=
  match l with
  | [] => None
  | e :: rest =>
      if p e then Some (config :: rest)
      else option_map (cons e) (replace_where p config rest)
  end.

(** The matching rule in the words of the specification: an element named
    exactly [name] anywhere in the list is taken first; only without one,
    the first element named by what follows the ["."] of [name]; without
    either, the new body is appended. *)
Definition spec_replace (key : ConfigObject -> option string) (name : string)
    (config : entry) (l : list entry) : list entry :=
  let named (n : string) (e : entry) :=
    match e with Some o => strict_eq (key o) n | None => false end in
  match replace_where (named name) config l with
  | Some l' => l'
  | None =>
      match after_dot name ≫= (fun suffix => replace_where (named suffix) config l) with
      | Some l' => l'
      | None => l ++ [config]
      end
  end.

(** The username rule in the words of the specification: the pattern,
    matched without regard to case. *)
Definition spec_username_accepted (u : string) : bool :=
  username_test (toUpperCase u).

Definition is_BridgeAddService (e : effect) : bool :=
  match e with BridgeAddService => true | _ => false end.

(** In a trace, every [BridgePublish] comes after a [BridgeAddService], the
    last step of the synchronous loading pass of [run]; [seen] tells whether
    one precedes the trace. *)
Fixpoint publish_after_loading (seen : bool) (t : list effect) : bool :=
  match t with
  | [] => true
  | BridgeAddService :: r => publish_after_loading true r
  | BridgePublish _ :: r => seen && publish_after_loading seen r
  | _ :: r => publish_after_loading seen r
  end.

(** A [BridgeAddService] occurs in the trace. *)
Definition loaded (t : list effect) : bool := existsb is_BridgeAddService t.

(** A stretch of trace without [BridgePublish]. *)
Definition no_publish (t : list effect) : Prop :=
  Forall (fun e => is_BridgePublish e = false) t.

(** [st'] differs from [st] at most in fields the publish decision does
    not read, and by effects other than [BridgePublish]. *)
Definition quiet (st st' : Server) : Prop :=
  callbacks st' = callbacks st
  /\ asyncCalls st' = asyncCalls st
  /\ asyncWait st' = asyncWait st
  /\ exists t, effects st' = effects st ++ t /\ no_publish t.

(** The invariant of the publish decision as long as no callback throws:
    the counter is the number of closures not yet invoked; the bridge was
    published once if the loading pass is over and no closure is
    outstanding, and not at all otherwise; and no publish precedes the end
    of the loading pass. *)
Definition discovery_inv (st : Server) : Prop :=
  asyncCalls st = Z.of_nat (pending st)
  /\ publishes st =
       (if asyncWait st then 0 else if (pending st =? 0)%nat then 1 else 0)%nat
  /\ publish_after_loading false (effects st) = true
  /\ (asyncWait st = false -> loaded (effects st) = true).

(** The state in which the publish decision is taken: as [discovery_inv],
    with the bridge not yet published. *)
Definition armed (st : Server) : Prop :=
  asyncCalls st = Z.of_nat (pending st)
  /\ publishes st = 0%nat
  /\ publish_after_loading false (effects st) = true
  /\ (asyncWait st = false -> loaded (effects st) = true).

(** The [once] guard of closure [id] has fired (vacuously so when there is
    no such closure). *)
Definition called (st : Server) (id : nat) : bool :=
  match callbacks st !! id with
  | Some cb => cb_called cb
  | None => true
  end.

(** An accessory instance with a service or a controller: those for which
    [createAccessory] returns an accessory. *)
Definition has_services (a : AccessoryInstance) : bool :=
  match getServices a, getControllers a with
  | [], O => false
  | _, _ => true
  end.

(** A discovery callback invoked with [found] runs to its publish test:
    no accessory makes [bridge.addBridgedAccessory] throw. *)
Definition completes (found : list AccessoryInstance) : bool :=
  forallb has_services found.

(** The effects [t] appended to the trace, one by one. *)
Definition emit_all (t : list effect) (st : Server) : Server :=
  fold_left (fun st e => emit e st) t st.

(** What holds of the publish decision whether or not callbacks throw: the
    counter is the number of closures not yet invoked; the bridge was
    published at most once, and not at all while the loading pass is under
    way or a closure is outstanding; and no publish precedes the end of the
    loading pass. *)
Definition publish_bound (st : Server) : Prop :=
  asyncCalls st = Z.of_nat (pending st)
  /\ (publishes st
      <= (if asyncWait st then 0 else if (pending st =? 0)%nat then 1 else 0))%nat
  /\ publish_after_loading false (effects st) = true
  /\ (asyncWait st = false -> loaded (effects st) = true).

(** Every platform of the API that, without [configureAccessory], calls
    back before its [accessories] call returns reports only accessories
    with a service or a controller: no callback throws inside [run]. *)
Definition immediate_complete (a : API) : Prop :=
  forall k instance found,
    api_platform a !! k = Some instance ->
    configureAccessory instance = false ->
    discovery instance = Immediate found -> completes found = true.

(** What [loadConfig] makes of the port pool of a document. *)
Definition checked_ports (c : Config) : option Ports :=
  match ports c with
  | Some p => if (start p >? end_ p)%Z then None else Some p
  | None => None
  end.

(** The accessories, with their publish information, of the
    [AccessoryPublish] effects of a trace, in order. *)
Definition published_infos (t : list effect) : list (PlatformAccessory * PublishInfo) :=
  omap (fun e => match e with AccessoryPublish a i => Some (a, i) | _ => None end) t.

(** The accessories of the [AccessoryUnpublish] effects of a trace. *)
Definition unpublished_accessories (t : list effect) : list PlatformAccessory :=
  omap (fun e => match e with AccessoryUnpublish a => Some a | _ => None end) t.

(** One hexadecimal digit as [digest("hex")] writes it. *)
Definition is_lower_hex (c : ascii) : bool :=
  let n := nat_of_ascii c in
  ((48 <=? n)%nat && (n <=? 57)%nat) || ((97 <=? n)%nat && (n <=? 102)%nat).

(** Every character of a string is such a digit. *)
Fixpoint all_lower_hex (s : string) : bool :=
  match s with
  | EmptyString => true
  | String c r => is_lower_hex c && all_lower_hex r
  end.

(** A cached element has the [UUID] of one of the given accessories. *)
Definition has_UUID_of (accessories : list PlatformAccessory) (c : cached) : bool :=
  existsb (fun a => strict_eq (cached_UUID c) (UUID a)) accessories.

(** The body of the loop of [loadDynamicPlatforms]. *)
Definition loadDynamicPlatform (st : Server) (p : string * PlatformInstance) : Server :=
  let '(dynamicPluginName, instance) := p in
  match activeDynamicPlugins st !! dynamicPluginName,
        activeDynamicPlugins st !! to_string (split_dot_1 dynamicPluginName) with
  | None, None =>
      let st := emit (Send "info_log" (Some ("Load " +:+ dynamicPluginName))) st in
      let st := emit (Construct instance) st in
      let st := with_active
                  (<[dynamicPluginName := instance]> (activeDynamicPlugins st)) st in
      if configurationRequestHandler instance
      then with_configurable
             (<[dynamicPluginName := instance]> (configurablePlatformPlugins st)) st
      else st
  | _, _ => st
  end.

(** The publish information of the [BridgePublish] effects of a trace. *)
Definition bridge_publications (t : list effect) : list PublishInfo :=
  omap (fun e => match e with BridgePublish i => Some i | _ => None end) t.

(** A plugin that [loadPlugins] keeps: allowed by the list of active
    plugins (when there is one), without a [loadError], and whose [load()]
    returns. *)
Definition plugin_kept (c : Config) (p : Plugin) : bool :=
  match plugins c with
  | Some l => bool_decide (plugin_name p ∈ l)
  | None => true
  end && negb (loadError p) && bool_decide (load p = None).

(** A dynamic platform name that [loadDynamicPlatforms] finds active,
    under the name itself or under its second ["."]-separated piece. *)
Definition covered (active : gmap string PlatformInstance) (name : string) : Prop :=
  is_Some (active !! name) \/ is_Some (active !! to_string (split_dot_1 name)).

(** The stacks of the uncaught exceptions among events. *)
Definition exception_logs (events : list cli_event) : list effect :=
  omap (fun ev => match ev with
                  | UncaughtException stack => Some (Log Error stack)
                  | Signal _ => None
                  end) events.

(** ** A sample installation *)

Module Sample.

(** A static platform whose discovery completes in a later turn. *)
Definition lights : PlatformInstance :=
  {| instance_id := "lights"; configureAccessory := false;
     configurationRequestHandler := false; discovery := Deferred |}.

Definition lights_entry : entry :=
  Some {| accessory := None; platform := Some "Lights";
          entry_name := Some "Lights"; uuid_base := None |}.

Definition switch_entry : entry :=
  Some {| accessory := Some "switch"; platform := None;
          entry_name := Some "Hall"; uuid_base := None |}.

Definition scoped_switch_entry : entry :=
  Some {| accessory := Some "homebridge-demo.switch"; platform := None;
          entry_name := Some "Porch"; uuid_base := None |}.

Definition new_switch_entry : entry :=
  Some {| accessory := Some "homebridge-demo.switch"; platform := None;
          entry_name := Some "Garden"; uuid_base := None |}.

Definition document : Config :=
  {| bridge := bridge default_config;
     accessories := Some [switch_entry; scoped_switch_entry];
     platforms := Some [lights_entry];
     plugins := None;
     ports := Some {| start := 51000; end_ := 51001 |};
     mdns := None |}.

(** A document without a [bridge] object: the file [{}]. *)
Definition empty_document : Config :=
  {| bridge := None; accessories := None; platforms := None;
     plugins := None; ports := None; mdns := None |}.

(** A document whose username is in lower case. *)
Definition lower_case_bridge : BridgeConfig :=
  {| bridge_name := Some "HOOBS"; username := Some "aa:bb:cc:dd:ee:ff";
     pin := Some default_pin; bridge_port := None; setupID := None;
     manufacturer := None; model := None |}.

Definition lower_case_document : Config :=
  set_bridge (Some lower_case_bridge) empty_document.

Definition camera : PlatformAccessory :=
  {| displayName := "Camera"; UUID := "0c9a3c5e11aa4f6b";
     associatedPlugin := Some "homebridge-camera";
     associatedPlatform := Some "Camera"; category := 17 |}.

Definition doorbell : PlatformAccessory :=
  {| displayName := "Doorbell"; UUID := "77b1f2d022bb4c1d";
     associatedPlugin := Some "homebridge-camera";
     associatedPlatform := Some "Camera"; category := 18 |}.

Definition television : PlatformAccessory :=
  {| displayName := "Television"; UUID := "5d2e8a4133cc4e2f";
     associatedPlugin := Some "homebridge-tv";
     associatedPlatform := Some "TV"; category := 31 |}.

(** A second accessory with the camera's [UUID]. *)
Definition camera_clone : PlatformAccessory :=
  {| displayName := "Camera 2"; UUID := "0c9a3c5e11aa4f6b";
     associatedPlugin := Some "homebridge-camera";
     associatedPlatform := Some "Camera"; category := 17 |}.

Definition host : Host :=
  {| host_configPath := "/hoobs/etc/config.json";
     host_configFile := Document document;
     host_cachedAccessories := Some [camera];
     host_api := {| api_accessory := ∅;
                    api_platform := {[ "Lights" := lights ]};
                    dynamicPlatforms := [] |};
     host_version := "3.3.0" |}.

Definition options : Options :=
  {| opt_config := None; opt_removeOrphans := true |}.

(** The server the constructor builds on [host]. *)
Definition constructed : Server := init_Server document true host [].

(** The server after [run]. *)
Definition launched : Server :=
  match run constructed with Ok st => st | Throw _ => constructed end.

(** A stand-in for the digest: the data followed by padding. *)
Definition digest (data : string) : string := data +:+ "da39a3ee5e6b".

(** The server after the camera was published externally. *)
Definition with_camera : Server :=
  snd (publishExternalAccessory digest constructed camera).

End Sample.

(** ** Further sample data *)

Module MoreSample.
Import Sample.

(** The lower-case document as [loadConfig] returns it. *)
Definition repaired_document : Config :=
  set_bridge (Some (set_username (Some default_username) lower_case_bridge))
             empty_document.

(** A dynamic platform that the plugin [homebridge-camera] registered. *)
Definition camera_platform : PlatformInstance :=
  {| instance_id := "camera"; configureAccessory := true;
     configurationRequestHandler := false; discovery := Deferred |}.

Definition dynamic_host : Host :=
  {| host_configPath := "/hoobs/etc/config.json";
     host_configFile := Document document;
     host_cachedAccessories := Some [camera];
     host_api := {| api_accessory := ∅; api_platform := ∅;
                    dynamicPlatforms := [("homebridge-camera.Camera", camera_platform)] |};
     host_version := "3.3.0" |}.

Definition dynamic_constructed : Server := init_Server document true dynamic_host [].

Definition bulb : AccessoryInstance :=
  {| instance_name := Some "Bulb"; instance_uuid_base := None;
     getServices := [TypedService]; getControllers := 0 |}.

(** A static platform that calls back before [accessories] returns. *)
Definition prompt_lights : PlatformInstance :=
  {| instance_id := "lights"; configureAccessory := false;
     configurationRequestHandler := false; discovery := Immediate [bulb] |}.

Definition prompt_host : Host :=
  {| host_configPath := "/hoobs/etc/config.json";
     host_configFile := Document document;
     host_cachedAccessories := None;
     host_api := {| api_accessory := ∅;
                    api_platform := {[ "Lights" := prompt_lights ]};
                    dynamicPlatforms := [] |};
     host_version := "3.3.0" |}.

Definition prompt_constructed : Server := init_Server document true prompt_host [].

Definition prompt_launched : Server :=
  match run prompt_constructed with Ok st => st | Throw _ => prompt_constructed end.

(** An accessory instance with neither service nor controller. *)
Definition bare : AccessoryInstance :=
  {| instance_name := Some "Bare"; instance_uuid_base := None;
     getServices := []; getControllers := 0 |}.

(** A static platform that calls back with it before [accessories]
    returns. *)
Definition bare_lights : PlatformInstance :=
  {| instance_id := "lights"; configureAccessory := false;
     configurationRequestHandler := false; discovery := Immediate [bulb; bare] |}.

Definition bare_constructed : Server :=
  init_Server document true
    {| host_configPath := "/hoobs/etc/config.json";
       host_configFile := Document document;
       host_cachedAccessories := None;
       host_api := {| api_accessory := ∅;
                      api_platform := {[ "Lights" := bare_lights ]};
                      dynamicPlatforms := [] |};
       host_version := "3.3.0" |} [].

Definition new_switch : ConfigObject :=
  {| accessory := Some "homebridge-demo.switch"; platform := None;
     entry_name := Some "Garden"; uuid_base := None |}.

(** The sample server after the garden switch replaced an accessory. *)
Definition replaced : Server :=
  match handleNewConfig constructed (Some "accessory") (Some "homebridge-demo.switch")
          true (Some new_switch) with
  | Ok st => st
  | Throw _ => constructed
  end.

(** The sample server after a second platform was added. *)
Definition extended : Server :=
  match handleNewConfig constructed (Some "platform") None false lights_entry with
  | Ok st => st
  | Throw _ => constructed
  end.

(** An installation whose configuration names the camera platform. *)
Definition camera_entry : ConfigObject :=
  {| accessory := None; platform := Some "Camera";
     entry_name := Some "Cameras"; uuid_base := None |}.

Definition camera_document : Config :=
  {| bridge := bridge default_config;
     accessories := None;
     platforms := Some [Some camera_entry];
     plugins := None; ports := None; mdns := None |}.

Definition configured_host : Host :=
  {| host_configPath := "/hoobs/etc/config.json";
     host_configFile := Document camera_document;
     host_cachedAccessories := Some [camera];
     host_api := {| api_accessory := ∅;
                    api_platform := {[ "Camera" := camera_platform ]};
                    dynamicPlatforms := [] |};
     host_version := "3.3.0" |}.

Definition configured_constructed : Server :=
  init_Server camera_document true configured_host [].

Definition configured_launched : Server :=
  match run configured_constructed with
  | Ok st => st
  | Throw _ => configured_constructed
  end.

End MoreSample.

(** ** Basic facts *)

Lemma count_app (p : effect -> bool) (t u : list effect) :
  count p (t ++ u) = (count p t + count p u)%nat.
Proof. unfold count. by rewrite filter_app, length_app. Qed.

Lemma count_one (p : effect -> bool) (e : effect) :
  count p [e] = if p e then 1%nat else 0%nat.
Proof.
  unfold count. rewrite filter_cons, filter_nil.
  destruct (p e); by case_decide.
Qed.

Lemma count_cons (p : effect -> bool) (e : effect) (t : list effect) :
  count p (e :: t) = ((if p e then 1 else 0) + count p t)%nat.
Proof. change (e :: t) with ([e] ++ t). by rewrite count_app, count_one. Qed.

Lemma count_nil (p : effect -> bool) : count p [] = 0%nat.
Proof. done. Qed.

Lemma filter_bool_idem {A} (p : A -> bool) (l : list A) :
  List.filter p (List.filter p l) = List.filter p l.
Proof.
  induction l as [|x l IH]; simpl; [done|].
  destruct (p x) eqn:E; simpl; [rewrite E; by f_equal | done].
Qed.

(** ** Cache reconciliation *)

Section Reconciliation.

Lemma find_instance_kept st a :
  kept (activeDynamicPlugins st) (removeOrphans st) (IsPlatform a) =
  match find_instance st a with Some _ => true | None => negb (removeOrphans st) end.
Proof.
  unfold kept, find_instance.
  destruct (activeDynamicPlugins st !! _); [done|].
  by destruct (activeDynamicPlugins st !! _).
Qed.

(** The loop keeps exactly the elements [kept] selects, in order, and
    leaves the instances and the policy alone. *)
Lemma reconcile_spec l : forall verified st,
  let r := reconcile l verified st in
  fst r = verified ++ List.filter (kept (activeDynamicPlugins st) (removeOrphans st)) l
  /\ activeDynamicPlugins (snd r) = activeDynamicPlugins st
  /\ removeOrphans (snd r) = removeOrphans st.
Proof.
  induction l as [|c l IH]; intros verified st; cbv zeta; cbn [reconcile List.filter].
  - by rewrite app_nil_r.
  - destruct c as [a|].
    + rewrite (find_instance_kept st a).
      destruct (find_instance st a) as [i|] eqn:Hf.
      * edestruct IH as (-> & -> & ->). cbn. by rewrite <- app_assoc.
      * cbn [removeOrphans emit]. destruct (removeOrphans st) eqn:Hr.
        -- edestruct IH as (-> & -> & ->). cbn. by rewrite Hr.
        -- edestruct IH as (-> & -> & ->). cbn. rewrite Hr.
           by rewrite <- app_assoc.
    + edestruct IH as (-> & -> & ->). by cbn.
Qed.

Lemma configCached_spec st :
  let st' := configCachedPlatformAccessories st in
  cachedPlatformAccessories st' =
    List.filter (kept (activeDynamicPlugins st) (removeOrphans st))
                (cachedPlatformAccessories st)
  /\ activeDynamicPlugins st' = activeDynamicPlugins st
  /\ removeOrphans st' = removeOrphans st.
Proof.
  unfold configCachedPlatformAccessories.
  pose proof (reconcile_spec (cachedPlatformAccessories st) [] st) as H.
  destruct (reconcile _ _ _) as [v st1]. simpl in *.
  by destruct H as (-> & -> & ->).
Qed.

Lemma configCached_iter st n :
  let st' := Nat.iter (S n) configCachedPlatformAccessories st in
  cachedPlatformAccessories st' =
    cachedPlatformAccessories (configCachedPlatformAccessories st)
  /\ activeDynamicPlugins st' = activeDynamicPlugins st
  /\ removeOrphans st' = removeOrphans st.
Proof.
  induction n as [|n IH].
  - simpl. by destruct (configCached_spec st) as (_ & -> & ->).
  - change (Nat.iter (S (S n)) configCachedPlatformAccessories st)
      with (configCachedPlatformAccessories
              (Nat.iter (S n) configCachedPlatformAccessories st)).
    destruct IH as (Hc & Ha & Hr). cbv zeta.
    destruct (configCached_spec (Nat.iter (S n) configCachedPlatformAccessories st))
      as (-> & -> & ->).
    rewrite Hc, Ha, Hr.
    destruct (configCached_spec st) as (-> & _ & _).
    by rewrite filter_bool_idem.
Qed.

(** C3. Reconciliation is idempotent: running
    [configCachedPlatformAccessories] on the state it produced, with the
    same active instances and orphan policy, leaves the verified set
    ([cachedPlatformAccessories]) as the first run made it. *)
Theorem reconcile_idempotent (st : Server) :
  let once := configCachedPlatformAccessories st in
  let twice := configCachedPlatformAccessories once in
  cachedPlatformAccessories twice = cachedPlatformAccessories once
  /\ activeDynamicPlugins once = activeDynamicPlugins st
  /\ removeOrphans once = removeOrphans st.
Proof.
  cbv zeta.
  destruct (configCached_iter st 1) as (H & _ & _).
  destruct (configCached_spec st) as (_ & Ha & Hr).
  by repeat split.
Qed.

(** C4. A cached accessory without an owning instance is in the verified
    set exactly when [removeOrphans] is false; when it is true the orphan
    is absent after the first run and after every later one. *)
Theorem orphan_kept_iff_policy (st : Server) (a : PlatformAccessory) :
  In (IsPlatform a) (cachedPlatformAccessories st) ->
  orphan st a ->
  (In (IsPlatform a) (cachedPlatformAccessories (configCachedPlatformAccessories st))
     <-> removeOrphans st = false)
  /\ (removeOrphans st = true ->
      forall n, ~ In (IsPlatform a)
                  (cachedPlatformAccessories
                     (Nat.iter (S n) configCachedPlatformAccessories st))).
Proof.
  intros Hin Ho.
  assert (Hk : kept (activeDynamicPlugins st) (removeOrphans st) (IsPlatform a)
               = negb (removeOrphans st)).
  { rewrite find_instance_kept. unfold orphan in Ho. by rewrite Ho. }
  destruct (configCached_spec st) as (Hc & _ & _).
  assert (Hiff : In (IsPlatform a)
                   (cachedPlatformAccessories (configCachedPlatformAccessories st))
                 <-> removeOrphans st = false).
  { rewrite Hc, filter_In, Hk. destruct (removeOrphans st); simpl; intuition congruence. }
  split; [exact Hiff|].
  intros Hr n. destruct (configCached_iter st n) as (-> & _ & _).
  rewrite Hiff. congruence.
Qed.

End Reconciliation.

(** ** Termination signals *)

Section Signals.

Lemma teardown_unpublish_effects (l : list (string * PlatformAccessory)) : forall st,
  effects (fold_left (fun st '((_, accessory) : string * PlatformAccessory) =>
                        emit (AccessoryUnpublish accessory) st) l st)
  = effects st ++ map (fun '(_, a) => AccessoryUnpublish a) l.
Proof.
  induction l as [|[k a] l IH]; intros st; simpl.
  - by rewrite app_nil_r.
  - rewrite IH. simpl. by rewrite <- app_assoc.
Qed.

Lemma first_signal srv s :
  let c := on_signal (start_cli srv) s in
  terminating c = true
  /\ effects (server c) = effects srv ++ teardown_effects s srv.
Proof.
  cbv zeta. unfold on_signal, start_cli, teardown, updateCachedAccessories,
    teardown_effects. cbn.
  split; [done|]. rewrite teardown_unpublish_effects. cbn.
  by rewrite <- !app_assoc.
Qed.

Lemma later_signals l : forall c,
  terminating c = true -> fold_left on_signal l c = c.
Proof.
  induction l as [|s l IH]; intros c Hc; simpl; [done|].
  unfold on_signal at 2. rewrite Hc. by apply IH.
Qed.

Lemma count_unpublish_effects (p : effect -> bool) (l : list (string * PlatformAccessory)) :
  (forall a, p (AccessoryUnpublish a) = false) ->
  count p (map (fun '(_, a) => AccessoryUnpublish a) l) = 0%nat.
Proof.
  intros Hp. induction l as [|[k a] l IH]; [done|].
  change (count p ([AccessoryUnpublish a] ++ map (fun '(_, a) => AccessoryUnpublish a) l) = 0%nat).
  by rewrite count_app, count_one, Hp, IH.
Qed.

Lemma count_teardown_effects (p : effect -> bool) s srv :
  (forall a, p (AccessoryUnpublish a) = false) ->
  count p (teardown_effects s srv) =
  count p [Log Info ("Got " +:+ signal_name s +:+ ", shutting down Bridge...");
           PersistSet (cachedPlatformAccessories srv); BridgeUnpublish;
           Emit "shutdown"; ExitAfter 3000 (128 + signal_number s)].
Proof.
  intros Hp. unfold teardown_effects.
  rewrite !count_app, count_unpublish_effects by done.
  change [?a; ?b; ?c; ?d; ?e] with ([a; b; c] ++ [d; e]).
  by rewrite count_app.
Qed.

(** C9. However many termination signals follow the first, the teardown
    sequence (persist the cache, unpublish the bridge, unpublish every
    external accessory, emit [shutdown]) is executed once, the cache is
    written once, and the signals after the first change nothing. *)
Theorem teardown_exactly_once (srv : Server) (s1 s2 : signal) (rest : list signal) :
  let c := fold_left on_signal (s1 :: s2 :: rest) (start_cli srv) in
  c = on_signal (start_cli srv) s1
  /\ effects (server c) = effects srv ++ teardown_effects s1 srv
  /\ count is_PersistSet (effects (server c)) = S (count is_PersistSet (effects srv))
  /\ count is_BridgeUnpublish (effects (server c)) = S (count is_BridgeUnpublish (effects srv))
  /\ count is_shutdown (effects (server c)) = S (count is_shutdown (effects srv)).
Proof.
  cbv zeta. destruct (first_signal srv s1) as [Ht He].
  change (fold_left on_signal (s1 :: s2 :: rest) (start_cli srv))
    with (fold_left on_signal (s2 :: rest) (on_signal (start_cli srv) s1)).
  rewrite later_signals by done. rewrite He.
  repeat split; rewrite count_app, count_teardown_effects by done;
    rewrite !count_cons, count_nil; cbn;
    rewrite ?(bool_decide_eq_true_2 _ eq_refl); lia.
Qed.

End Signals.

(** ** The [newConfig] listener *)

(** C10. The listener calls [handleNewConfig] without arguments: [type] is
    [undefined], neither branch runs, the configuration in memory (with its
    accessories and platforms lists) is as before, and the configuration
    file is rewritten with that unmodified configuration. *)
Theorem newConfig_listener_rewrites_unchanged (st : Server) :
  exists st',
    on_newConfig st = Ok st'
    /\ config st' = config st
    /\ accessories (config st') = accessories (config st)
    /\ platforms (config st') = platforms (config st)
    /\ effects st' = effects st ++ [ConfigWrite (config st)].
Proof. exists (emit (ConfigWrite (config st)) st). by repeat split. Qed.

(** ** Loading the configuration *)

Section LoadConfig.

Variable configPath : string.

(** With a [bridge] object, and a [ports] member that is not [null], the
    document is accepted; the pool is kept when [start <= end], and the
    username when it passes the test. *)
Lemma loadConfig_document c b :
  bridge c = Some b ->
  exists log c',
    loadConfig configPath (Document c) = (log, Ok c')
    /\ ports c' = checked_ports c
    /\ bridge c' =
         Some (if username_test (to_string (username b)) then b
               else set_username (Some default_username) b).
Proof.
  intros Hb. unfold loadConfig, checked_ports.
  destruct (ports c) as [p|] eqn:Hp; [destruct (start p >? end_ p)%Z|];
    cbn; rewrite Hb; destruct (username_test _); cbn; eauto 10.
Qed.


End LoadConfig.

(** ** External accessories: ports and addresses *)

Section ExternalAccessories.

Variable sha1_hex : string -> string.

Local Abbreviation publishOne := (publishExternalAccessory sha1_hex).
Local Abbreviation handlePublish := (handlePublishExternalAccessories sha1_hex).
Local Abbreviation publishEvents := (publishAll sha1_hex).
Local Abbreviation address := (generateAddress sha1_hex).

Lemma allocate_port_pool st :
  externalPorts (snd (allocate_port st)) = externalPorts st
  /\ publishedAccessories (snd (allocate_port st)) = publishedAccessories st
  /\ (effects (snd (allocate_port st)) = effects st
      \/ effects (snd (allocate_port st)) = effects st ++
           [Log Info "External port pool ran out of ports. Fallback to random assign."]).
Proof.
  unfold allocate_port.
  destruct (externalPorts st) as [pool|] eqn:Hp; [|by auto].
  destruct (nextExternalPort st) as [next|]; [|by auto].
  destruct (next >? end_ pool)%Z; cbn; auto.
Qed.

Lemma publishExternalAccessory_port st a :
  let r := publishOne st a in
  fst r = fst (allocate_port st)
  /\ externalPorts (snd r) = externalPorts st
  /\ nextExternalPort (snd r) = nextExternalPort (snd (allocate_port st)).
Proof.
  cbv zeta. unfold publishExternalAccessory.
  destruct (allocate_port_pool st) as (He & _).
  destruct (allocate_port st) as [p st1]. cbn in *.
  destruct (published_at _ _); cbn; auto.
Qed.

(** Without a pool every request is auto-assigned. *)
Lemma ports_without_pool accessories : forall st,
  externalPorts st = None ->
  fst (handlePublish st accessories)
  = map (fun _ => 0%Z) accessories.
Proof.
  induction accessories as [|a l IH]; intros st Hp; [done|].
  cbn [handlePublishExternalAccessories].
  destruct (publishExternalAccessory_port st a) as (Hf & He & _).
  destruct (publishOne st a) as [p st1]. cbn in *.
  specialize (IH st1). destruct (handlePublish st1 l) as [ps st2].
  cbn in *. rewrite IH by congruence. f_equal.
  rewrite Hf. unfold allocate_port. by rewrite Hp.
Qed.

(** With a pool [s <= e], the [k]-th and later requests. *)
Lemma ports_with_pool (s e : Z) accessories : forall st k,
  (s <= e)%Z ->
  externalPorts st = Some {| start := s; end_ := e |} ->
  nextExternalPort st = next_after s e k ->
  fst (handlePublish st accessories)
  = map (pool_port s e) (seq k (length accessories)).
Proof.
  induction accessories as [|a l IH]; intros st k Hse Hp Hn; [done|].
  cbn [handlePublishExternalAccessories].
  destruct (publishExternalAccessory_port st a) as (Hf & He & Hn').
  destruct (publishOne st a) as [p st1]. cbn in Hf, He, Hn'.
  specialize (IH st1 (S k) Hse).
  destruct (handlePublish st1 l) as [ps st2].
  cbn [fst] in *. cbn [length seq map].
  assert (p = pool_port s e k /\ nextExternalPort st1 = next_after s e (S k))
    as [-> Hn1].
  { rewrite Hf, Hn'. unfold allocate_port, pool_port. rewrite Hp, Hn.
    destruct k as [|k]; cbn [next_after start end_].
    - cbn. split; [|f_equal; lia].
      destruct (Z.ltb_spec (Z.of_nat 0) (e - s + 1)); lia.
    - rewrite Z.gtb_ltb.
      destruct (Z.ltb_spec e (s + Z.min (Z.of_nat (S k)) (e - s + 1)));
        cbn [fst snd nextExternalPort emit with_nextExternalPort].
      + rewrite Hn. cbn [next_after]. split.
        * destruct (Z.ltb_spec (Z.of_nat (S k)) (e - s + 1)); lia.
        * f_equal. lia.
      + split.
        * destruct (Z.ltb_spec (Z.of_nat (S k)) (e - s + 1)); lia.
        * f_equal. lia. }
  f_equal. apply IH; [by rewrite He|done].
Qed.

Lemma handlePublishExternalAccessories_app l1 : forall st l2,
  handlePublish st (l1 ++ l2) =
  let '(ps, st1) := handlePublish st l1 in
  let '(qs, st2) := handlePublish st1 l2 in
  (ps ++ qs, st2).
Proof.
  induction l1 as [|a l1 IH]; intros st l2; cbn.
  - by destruct (handlePublish st l2).
  - destruct (publishOne st a) as [p st1]. rewrite IH.
    destruct (handlePublish st1 l1) as [ps st2].
    by destruct (handlePublish st2 l2).
Qed.

(** The events of a run allocate as one event with all their accessories. *)
Lemma publishAll_concat events : forall st,
  publishEvents st events = handlePublish st (concat events).
Proof.
  induction events as [|l events IH]; intros st; cbn; [done|].
  rewrite handlePublishExternalAccessories_app.
  destruct (handlePublish st l) as [ps st1].
  by rewrite IH.
Qed.

Lemma pool_port_distinct (s e : Z) (i j : nat) :
  i <> j -> pool_port s e i = pool_port s e j -> pool_port s e i = 0%Z.
Proof.
  unfold pool_port. intros Hij.
  destruct (Z.of_nat i <? _)%Z, (Z.of_nat j <? _)%Z; lia.
Qed.

Lemma new_Server_ports h ro doc st :
  host_configFile h = Document doc ->
  new_Server {| opt_config := None; opt_removeOrphans := ro |} h = Ok st ->
  externalPorts st = checked_ports doc /\ nextExternalPort st = None.
Proof.
  unfold new_Server. cbn. intros ->.
  destruct (bridge doc) as [b|] eqn:Hb.
  - destruct (loadConfig_document (host_configPath h) doc b Hb) as (log & c' & -> & Hp & _).
    cbn. intros [= <-]. by cbn.
  - unfold loadConfig.
    destruct (match ports doc with Some _ => _ | None => _ end) as [log c] eqn:Hc.
    assert (bridge c = None) as ->; [|by cbn].
    destruct (ports doc) as [p|]; [destruct (start p >? end_ p)%Z|];
      injection Hc as <- <-; done.
Qed.

Lemma disabled_pool_ports (s e : Z) (l : list PlatformAccessory) : forall k,
  (e < s)%Z ->
  map (fun _ => 0%Z) l = map (pool_port s e) (seq k (length l)).
Proof.
  induction l as [|a l IH]; intros k Hse; [done|].
  cbn [map length seq]. rewrite <- IH by done. f_equal.
  unfold pool_port. destruct (Z.ltb_spec (Z.of_nat k) (e - s + 1)); lia.
Qed.

Lemma lookup_pool_ports (s e : Z) (n : nat) : forall k i p,
  map (pool_port s e) (seq k n) !! i = Some p -> p = pool_port s e (k + i).
Proof.
  induction n as [|n IH]; intros k i p; [done|].
  destruct i as [|i]; cbn.
  - intros [= <-]. by rewrite Nat.add_0_r.
  - intros H. apply IH in H. by rewrite Nat.add_succ_r.
Qed.


(** The address is the first twelve characters of the digest, in upper
    case, in pairs that [":"] separates. *)
Lemma generateAddress_digest data c0 c1 c2 c3 c4 c5 c6 c7 c8 c9 c10 c11 rest :
  sha1_hex data =
    String c0 (String c1 (String c2 (String c3 (String c4 (String c5
   (String c6 (String c7 (String c8 (String c9 (String c10 (String c11 rest))))))))))) ->
  address data =
    String (upper_ascii c0) (String (upper_ascii c1) (String ":"
   (String (upper_ascii c2) (String (upper_ascii c3) (String ":"
   (String (upper_ascii c4) (String (upper_ascii c5) (String ":"
   (String (upper_ascii c6) (String (upper_ascii c7) (String ":"
   (String (upper_ascii c8) (String (upper_ascii c9) (String ":"
   (String (upper_ascii c10) (String (upper_ascii c11) EmptyString)))))))))))))))).
Proof. unfold generateAddress. by intros ->. Qed.

(** With a digest of twelve characters or more (a SHA-1 digest has forty)
    the address has the seventeen characters of [XX:XX:XX:XX:XX:XX]. *)
Lemma generateAddress_length data :
  (12 <= String.length (sha1_hex data))%nat ->
  String.length (address data) = 17%nat.
Proof.
  unfold generateAddress. generalize (sha1_hex data). intros s H.
  do 12 (destruct s as [|? s]; [cbn in H; lia|]). reflexivity.
Qed.

(** A request whose address is taken changes nothing but the log (and the
    port counter). *)
Lemma collision_step st a earlier :
  published_at (address (UUID a)) (publishedAccessories st) = Some earlier ->
  let st' := snd (publishOne st a) in
  publishedAccessories st' = publishedAccessories st
  /\ exists log,
       effects st' = effects st ++ log ++
         [Log Warn ("Accessory " +:+ displayName a +:+ "experienced an address collision.")]
       /\ (log = [] \/
           log = [Log Info "External port pool ran out of ports. Fallback to random assign."]).
Proof.
  intros Hc. cbv zeta. unfold publishExternalAccessory.
  destruct (allocate_port_pool st) as (_ & Hpub & Heff).
  destruct (allocate_port st) as [p st1]. cbn [snd] in Hpub, Heff.
  rewrite Hpub, Hc. cbn. split; [done|].
  destruct Heff as [-> | ->].
  - exists []. by auto.
  - eexists. split; [|by right]. by rewrite <- app_assoc.
Qed.

(** A request whose address is free is published under that address. *)
Lemma free_address_step st a :
  published_at (address (UUID a)) (publishedAccessories st) = None ->
  let st' := snd (publishOne st a) in
  publishedAccessories st' = publishedAccessories st ++ [(address (UUID a), a)]
  /\ exists info,
       last (effects st') = Some (AccessoryPublish a info)
       /\ pub_username info = address (UUID a).
Proof.
  intros Hc. cbv zeta. unfold publishExternalAccessory.
  destruct (allocate_port_pool st) as (_ & Hpub & _).
  destruct (allocate_port st) as [p st1]. cbn [snd] in Hpub.
  rewrite Hpub, Hc. cbn. split; [done|].
  eexists. by rewrite last_snoc.
Qed.

(** C5. The advertised address is a function of the accessory's [UUID]
    alone (of the form [XX:XX:XX:XX:XX:XX], for a digest of twelve
    characters or more), and a publish request whose address is already published in
    this run is rejected: the accessory is not published, a warning is
    logged, and the table of published accessories (with the earlier
    publisher at that address) is as before. *)
Theorem address_collision_rejected (st : Server) (a earlier : PlatformAccessory) :
  published_at (generateAddress sha1_hex (UUID a)) (publishedAccessories st) = Some earlier ->
  let st' := snd (publishExternalAccessory sha1_hex st a) in
  (forall b, UUID b = UUID a ->
     generateAddress sha1_hex (UUID b) = generateAddress sha1_hex (UUID a))
  /\ ((12 <= String.length (sha1_hex (UUID a)))%nat ->
      String.length (generateAddress sha1_hex (UUID a)) = 17%nat)
  /\ publishedAccessories st' = publishedAccessories st
  /\ published_at (generateAddress sha1_hex (UUID a)) (publishedAccessories st') = Some earlier
  /\ count is_AccessoryPublish (effects st') = count is_AccessoryPublish (effects st)
  /\ In (Log Warn ("Accessory " +:+ displayName a +:+ "experienced an address collision."))
        (effects st').
Proof.
  intros Hc. cbv zeta.
  destruct (collision_step st a earlier Hc) as (Hpub & log & Heff & Hlog).
  split; [by intros b ->|]. split; [apply generateAddress_length|].
  split; [done|]. split; [by rewrite Hpub|].
  rewrite Heff. split.
  - rewrite !count_app, count_one. cbn.
    destruct Hlog as [-> | ->]; [rewrite count_nil | rewrite count_one]; cbn; lia.
  - rewrite !in_app_iff. right. right. by left.
Qed.

End ExternalAccessories.

(** ** The remote configuration channel *)

Section RemoteConfiguration.

Variable key : ConfigObject -> option string.

Lemma replace_first_where name config l :
  Forall is_Some l ->
  replace_first key name (if has_dot name then split_dot_1 name else None) config l
  = Ok (replace_where (name_matches key name) config l).
Proof.
  induction 1 as [|e l [o ->] _ IH]; [done|].
  cbn [replace_first replace_where name_matches prop mbind result_bind].
  destruct (strict_eq (key o) name); [done|]. cbn [orb].
  destruct (has_dot name); cbn [andb].
  - destruct (truthy (split_dot_1 name) && _); [done|].
    by rewrite IH.
  - rewrite IH. done.
Qed.

Lemma replace_where_none (p : entry -> bool) config l :
  (forall e, In e l -> p e = false) -> replace_where p config l = None.
Proof.
  induction l as [|e l IH]; intros H; [done|]. cbn.
  rewrite (H e) by (by left). rewrite IH; [done|].
  intros e' He'. apply H. by right.
Qed.

Lemma replace_where_first (p : entry -> bool) config l : forall i e,
  l !! i = Some e -> p e = true ->
  (forall j e', (j < i)%nat -> l !! j = Some e' -> p e' = false) ->
  replace_where p config l = Some (<[i := config]> l).
Proof.
  induction l as [|x l IH]; intros i e Hi He Hbefore; [done|].
  destruct i as [|i]; cbn in *.
  - injection Hi as ->. by rewrite He.
  - rewrite (Hbefore 0%nat x) by (done || lia).
    rewrite (IH i e Hi He); [done|].
    intros j e' Hj. apply (Hbefore (S j)). lia.
Qed.

Lemma apply_config_replace l name body :
  Forall is_Some (default [] l) ->
  exists l',
    apply_config key l (Some name) true body = Ok l'
    /\ replaced_or_appended key name body (default [] l) l'.
Proof.
  intros Hl. unfold apply_config. cbn [negb prop id mbind result_bind].
  rewrite replace_first_where by done. cbn.
  eexists. split; [done|]. split.
  - intros i e Hi He Hbefore.
    rewrite (replace_where_first _ _ _ i e Hi He Hbefore). cbn.
    assert (i < length (default [] l))%nat by (by eapply lookup_lt_Some).
    split; [done|]. split; [by rewrite length_insert|].
    by apply list_lookup_insert_eq.
  - intros Hnone. by rewrite replace_where_none.
Qed.

End RemoteConfiguration.

(** C6 (amended). A [replace] request on the accessories list (and likewise
    on the platforms list), every element of which is an object, replaces
    the first element, in list order, whose type name equals the given name
    or equals the second ["."]-separated piece of the given name (when the
    name has a ["."] and that piece is not empty): the length is unchanged
    and that position holds the new body.  When no element matches, the new
    body is appended.  The configuration file is rewritten with the
    result. *)
Theorem replace_first_match_or_append (st : Server) (name : string) (body : entry) :
  (Forall is_Some (default [] (accessories (config st))) ->
   exists st' l',
     handleNewConfig st (Some "accessory") (Some name) true body = Ok st'
     /\ accessories (config st') = Some l'
     /\ platforms (config st') = platforms (config st)
     /\ replaced_or_appended accessory name body (default [] (accessories (config st))) l'
     /\ effects st' = effects st ++ [ConfigWrite (config st')])
  /\ (Forall is_Some (default [] (platforms (config st))) ->
      exists st' l',
        handleNewConfig st (Some "platform") (Some name) true body = Ok st'
        /\ platforms (config st') = Some l'
        /\ accessories (config st') = accessories (config st)
        /\ replaced_or_appended platform name body (default [] (platforms (config st))) l'
        /\ effects st' = effects st ++ [ConfigWrite (config st')]).
Proof.
  split; intros Hl.
  - destruct (apply_config_replace accessory _ name body Hl) as (l' & Ha & Hr).
    unfold handleNewConfig. cbn [strict_eq].
    rewrite bool_decide_eq_true_2 by done. rewrite Ha. cbn.
    eexists _, l'. split; [reflexivity|]. cbn.
    split; [done|]. split; [done|]. split; [exact Hr|done].
  - destruct (apply_config_replace platform _ name body Hl) as (l' & Ha & Hr).
    unfold handleNewConfig. cbn [strict_eq].
    rewrite bool_decide_eq_false_2 by done.
    rewrite bool_decide_eq_true_2 by done. rewrite Ha. cbn.
    eexists _, l'. split; [reflexivity|]. cbn.
    split; [done|]. split; [done|]. split; [exact Hr|done].
Qed.

(** ** The publish decision *)

Section PublishDecision.

Lemma publish_after_loading_app t : forall seen u,
  publish_after_loading seen (t ++ u)
  = publish_after_loading seen t && publish_after_loading (seen || loaded t) u.
Proof.
  induction t as [|e t IH]; intros seen u.
  - cbn. by rewrite orb_false_r.
  - destruct e; cbn; rewrite ?IH, ?orb_true_r, ?orb_false_r, ?orb_true_l; try done.
    by rewrite andb_assoc.
Qed.

Lemma no_publish_count t : no_publish t -> count is_BridgePublish t = 0%nat.
Proof.
  induction 1 as [|e t He _ IH]; [done|]. by rewrite count_cons, He, IH.
Qed.

Lemma no_publish_after_loading t : forall seen,
  no_publish t -> publish_after_loading seen t = true.
Proof.
  induction t as [|e t IH]; intros seen H; [done|].
  inversion H as [|? ? He Ht]; subst.
  destruct e; cbn in *; try done; by apply IH.
Qed.

Ltac quiet_fields :=
  split; [try done | split; [try done | split; [try done |]]].

Lemma quiet_refl st : quiet st st.
Proof.
  quiet_fields. exists []. split; [by rewrite app_nil_r | constructor].
Qed.

Lemma quiet_fields_only st st' :
  callbacks st' = callbacks st -> asyncCalls st' = asyncCalls st ->
  asyncWait st' = asyncWait st -> effects st' = effects st -> quiet st st'.
Proof.
  intros. quiet_fields. exists []. split; [by rewrite app_nil_r | constructor].
Qed.

Lemma quiet_trans st1 st2 st3 : quiet st1 st2 -> quiet st2 st3 -> quiet st1 st3.
Proof.
  intros (Hc & Ha & Hw & t & Ht & Hq) (Hc' & Ha' & Hw' & u & Hu & Hq').
  quiet_fields; try congruence.
  exists (t ++ u). split; [by rewrite Hu, Ht, app_assoc | by apply Forall_app].
Qed.

Lemma quiet_emit e st : is_BridgePublish e = false -> quiet st (emit e st).
Proof. intros He. quiet_fields. exists [e]. split; [done | by constructor]. Qed.

Lemma quiet_fold {A} (f : Server -> A -> Server) l :
  (forall st x, quiet st (f st x)) -> forall st, quiet st (fold_left f l st).
Proof.
  intros Hf. induction l as [|x l IH]; intros st; cbn; [apply quiet_refl|].
  eapply quiet_trans; [apply Hf | apply IH].
Qed.

Lemma quiet_inv st st' : quiet st st' -> discovery_inv st -> discovery_inv st'.
Proof.
  intros (Hc & Ha & Hw & t & Ht & Hq) (Hn & Hp & Ho & Hl).
  unfold discovery_inv, publishes, pending in *.
  rewrite Hc, Ha, Hw, Ht. split; [|split; [|split]].
  - done.
  - by rewrite count_app, (no_publish_count t Hq), Nat.add_0_r.
  - rewrite publish_after_loading_app, Ho. by apply no_publish_after_loading.
  - intros Hf. unfold loaded in *. rewrite existsb_app, Hl; done.
Qed.

Ltac quiet_step := eapply quiet_trans; [| apply quiet_emit; done].

Lemma reconcile_quiet l : forall verified st, quiet st (snd (reconcile l verified st)).
Proof.
  induction l as [|[a|] l IH]; intros verified st; cbn [reconcile].
  - apply quiet_refl.
  - destruct (find_instance st a).
    + eapply quiet_trans; [|apply IH]. quiet_step. by apply quiet_emit.
    + cbn [removeOrphans emit]. destruct (removeOrphans st).
      * eapply quiet_trans; [|apply IH]. quiet_step. by apply quiet_emit.
      * eapply quiet_trans; [|apply IH]. quiet_step. by apply quiet_emit.
  - eapply quiet_trans; [|apply IH]. by apply quiet_emit.
Qed.

Lemma configCached_quiet st : quiet st (configCachedPlatformAccessories st).
Proof.
  unfold configCachedPlatformAccessories.
  pose proof (reconcile_quiet (cachedPlatformAccessories st) [] st) as H.
  destruct (reconcile _ _ _) as [v st1]. exact H.
Qed.

Lemma loadDynamicPlatforms_quiet st : quiet st (loadDynamicPlatforms st).
Proof.
  unfold loadDynamicPlatforms. apply quiet_fold. clear st.
  intros st [name instance].
  destruct (activeDynamicPlugins st !! name); [apply quiet_refl|].
  destruct (activeDynamicPlugins st !! _); [apply quiet_refl|].
  destruct (configurationRequestHandler instance).
  - eapply (quiet_trans _ (emit _ (emit _ st))); [|by apply quiet_fields_only].
    quiet_step. by apply quiet_emit.
  - eapply (quiet_trans _ (emit _ (emit _ st))); [|by apply quiet_fields_only].
    quiet_step. by apply quiet_emit.
Qed.

Lemma loadAccessories_quiet l : forall st st',
  loadAccessories l st = Ok st' -> quiet st st'.
Proof.
  induction l as [|[o|] l IH]; intros st st'; cbn.
  - intros [= <-]. apply quiet_refl.
  - destruct (accessory o ≫= _) as [instance|].
    + destruct (createAccessory _ _ _ _); intros H; apply IH in H; [|done].
      eapply quiet_trans; [|exact H]. by apply quiet_emit.
    + intros H. apply IH in H. eapply quiet_trans; [|exact H]. by apply quiet_emit.
  - done.
Qed.

Lemma quiet_armed st st' : quiet st st' -> armed st -> armed st'.
Proof.
  intros (Hc & Ha & Hw & t & Ht & Hq) (Hn & Hp & Ho & Hl).
  unfold armed, publishes, pending in *.
  rewrite Hc, Ha, Hw, Ht. split; [|split; [|split]].
  - done.
  - by rewrite count_app, (no_publish_count t Hq), Nat.add_0_r.
  - rewrite publish_after_loading_app, Ho. by apply no_publish_after_loading.
  - intros Hf. unfold loaded in *. rewrite existsb_app, Hl; done.
Qed.

Lemma armed_waiting st : asyncWait st = true -> armed st -> discovery_inv st.
Proof. intros Hw (Hn & Hp & Ho & Hl). unfold discovery_inv. by rewrite Hw. Qed.

Lemma waiting_armed st : asyncWait st = true -> discovery_inv st -> armed st.
Proof. intros Hw (Hn & Hp & Ho & Hl). unfold armed. by rewrite Hw in Hp. Qed.

Lemma publish_effects st :
  callbacks (publish st) = callbacks st
  /\ asyncCalls (publish st) = asyncCalls st
  /\ asyncWait (publish st) = asyncWait st
  /\ exists pre info post,
       effects (publish st) = effects st ++ pre ++ BridgePublish info :: post
       /\ no_publish pre /\ no_publish post.
Proof.
  unfold publish. cbn. split; [done|]. split; [done|]. split; [done|].
  eexists [_; _; _; _], _, [_; _]. rewrite <- !app_assoc. cbn.
  split; [reflexivity|]. split; by repeat constructor.
Qed.

(** The publish decision, at the end of [run] and in the callback. *)
Lemma decide_publish st :
  armed st ->
  discovery_inv (if (asyncCalls st =? 0)%Z && negb (asyncWait st) then publish st else st).
Proof.
  intros (Hn & Hp & Ho & Hl).
  destruct (asyncWait st) eqn:Hw.
  - rewrite andb_false_r. apply armed_waiting; [done|]. unfold armed. by rewrite Hw.
  - rewrite andb_true_r. destruct (Z.eqb_spec (asyncCalls st) 0) as [Hz|Hz].
    + destruct (publish_effects st) as (Hc & Ha & Hw' & pre & info & post & He & Hpre & Hpost).
      unfold discovery_inv, publishes, pending in *.
      rewrite Hc, Ha, Hw', Hw, He.
      assert (length (filter (fun cb => cb_called cb = false) (callbacks st)) = 0%nat)
        as Hpend by lia.
      rewrite Hpend. split; [done|]. split; [|split].
      * rewrite !count_app, count_cons, Hp, (no_publish_count pre Hpre),
          (no_publish_count post Hpost). done.
      * rewrite !publish_after_loading_app, Ho. cbn.
        rewrite (Hl eq_refl), !(no_publish_after_loading) by done. done.
      * intros _. unfold loaded in *. by rewrite existsb_app, Hl.
    + unfold discovery_inv. rewrite Hw. split; [done|]. split; [|by split].
      rewrite Hp. destruct (Nat.eqb_spec (pending st) 0); [lia|done].
Qed.

Lemma pending_fired (l : list Callback) : forall id cb,
  l !! id = Some cb -> cb_called cb = false ->
  length (filter (fun cb => cb_called cb = false) l)
  = S (length (filter (fun cb => cb_called cb = false) (<[id := fired cb]> l))).
Proof.
  induction l as [|x l IH]; intros id cb Hl Hc; [done|].
  destruct id as [|id]; cbn in Hl.
  - injection Hl as ->.
    change (<[0%nat := fired cb]> (cb :: l)) with (fired cb :: l).
    rewrite !filter_cons.
    rewrite decide_True by done. rewrite decide_False by done. done.
  - change (<[S id := fired cb]> (x :: l)) with (x :: <[id := fired cb]> l).
    rewrite !filter_cons.
    destruct (decide (cb_called x = false)); cbn [length];
      by rewrite (IH id cb Hl Hc).
Qed.

Lemma createAccessory_None a d t u :
  createAccessory a d t u = None <-> has_services a = false.
Proof.
  unfold createAccessory, has_services.
  destruct (getServices a) as [|[] l], (getControllers a); split; done.
Qed.

Lemma emit_all_eq t : forall st,
  emit_all t st
  = {| api := api st; config := config st;
       cachedPlatformAccessories := cachedPlatformAccessories st;
       removeOrphans := removeOrphans st; externalPorts := externalPorts st;
       nextExternalPort := nextExternalPort st;
       activeDynamicPlugins := activeDynamicPlugins st;
       configurablePlatformPlugins := configurablePlatformPlugins st;
       publishedAccessories := publishedAccessories st;
       asyncCalls := asyncCalls st; asyncWait := asyncWait st;
       callbacks := callbacks st; package_version := package_version st;
       effects := effects st ++ t |}.
Proof.
  induction t as [|e t IH]; intros st.
  - destruct st. cbn. by rewrite app_nil_r.
  - change (emit_all (e :: t) st) with (emit_all t (emit e st)).
    rewrite IH. cbn. by rewrite <- app_assoc.
Qed.

Lemma emit_all_quiet t st : no_publish t -> quiet st (emit_all t st).
Proof. intros Ht. rewrite emit_all_eq. quiet_fields. by exists t. Qed.

(** The loop adds effects only, none of them a publish. *)
Lemma addFoundAccessories_emits cb found : forall st,
  exists t, no_publish t /\ fst (addFoundAccessories cb found st) = emit_all t st.
Proof.
  induction found as [|a found IH]; intros st; cbn [addFoundAccessories].
  - exists []. split; [constructor|done].
  - destruct (createAccessory a _ _ _) as [acc|].
    + match goal with |- context [addFoundAccessories cb found ?s] =>
        destruct (IH s) as (t & Ht & ->) end.
      eexists (_ :: _ :: t). split; [|reflexivity]. by repeat constructor.
    + eexists [_; _]. split; [|reflexivity]. by repeat constructor.
Qed.

(** It throws exactly when an accessory has neither service nor
    controller. *)
Lemma addFoundAccessories_completes cb found : forall st,
  snd (addFoundAccessories cb found st)
  = if completes found then None else Some TypeError.
Proof.
  induction found as [|a found IH]; intros st; cbn [addFoundAccessories completes forallb];
    [done|].
  destruct (createAccessory a _ _ _) as [acc|] eqn:Hc.
  - destruct (has_services a) eqn:Hs; [apply IH|].
    pose proof (proj2 (createAccessory_None a (instance_name a) (cb_platformType cb)
                         (instance_uuid_base a)) Hs) as Hn.
    congruence.
  - apply createAccessory_None in Hc. by rewrite Hc.
Qed.

(** The callback: stopped by its guard (or without a closure), or run with
    the counter decremented. *)
Lemma discovered_cases id found st :
  (called st id = true
   /\ fst (discovered id found st) = st
   /\ snd (discovered id found st) <> Some TypeError)
  \/ exists cb t,
       callbacks st !! id = Some cb /\ cb_called cb = false /\ no_publish t
       /\ let st1 := emit_all t (with_asyncCalls (asyncCalls st - 1)
                        (with_callbacks (<[id := fired cb]> (callbacks st)) st)) in
          discovered id found st
          = if completes found
            then (if (asyncCalls st1 =? 0)%Z && negb (asyncWait st1)
                  then publish st1 else st1, None)
            else (st1, Some TypeError).
Proof.
  unfold discovered, called.
  destruct (callbacks st !! id) as [cb|] eqn:Hcb; [|by left].
  destruct (cb_called cb) eqn:Hcalled; [by left|]. right.
  match goal with |- context [addFoundAccessories cb found ?s] =>
    destruct (addFoundAccessories_emits cb found s) as (t & Ht & Hfst);
    pose proof (addFoundAccessories_completes cb found s) as Hsnd;
    destruct (addFoundAccessories cb found s) as [st1 e] end.
  cbn [fst snd] in Hfst, Hsnd. subst st1 e.
  exists cb, t. split; [done|]. split; [done|]. split; [done|]. cbv zeta.
  destruct (completes found); [by destruct (_ && _)|done].
Qed.

Lemma fired_called cb : cb_called cb = true -> fired cb = cb.
Proof. destruct cb. cbn. by intros ->. Qed.

Lemma discovered_callbacks id found st :
  callbacks (fst (discovered id found st))
  = match callbacks st !! id with
    | Some cb => <[id := fired cb]> (callbacks st)
    | None => callbacks st
    end.
Proof.
  destruct (discovered_cases id found st) as [(Hc & -> & _)|(cb & t & Hcb & _ & _ & ->)].
  - unfold called in Hc. destruct (callbacks st !! id) as [cb|] eqn:Hcb; [|done].
    rewrite (fired_called cb Hc). by rewrite list_insert_id.
  - rewrite Hcb. destruct (completes found); [destruct (_ && _)|];
      cbn [fst]; rewrite ?(proj1 (publish_effects _)); by rewrite emit_all_eq.
Qed.

(** The callback touches neither the configuration, the plugin API, the
    cache, the dynamic platforms nor the end of the loading pass. *)
Lemma discovered_frame id found st :
  let st' := fst (discovered id found st) in
  api st' = api st
  /\ config st' = config st
  /\ cachedPlatformAccessories st' = cachedPlatformAccessories st
  /\ activeDynamicPlugins st' = activeDynamicPlugins st
  /\ removeOrphans st' = removeOrphans st
  /\ asyncWait st' = asyncWait st.
Proof.
  cbv zeta.
  destruct (discovered_cases id found st) as [(_ & -> & _)|(cb & t & _ & _ & _ & ->)];
    [done|].
  destruct (completes found); [destruct (_ && _)|];
    cbn [fst]; unfold publish; rewrite emit_all_eq; by cbn.
Qed.

(** With a closure outstanding the bridge is not published: the state in
    which its callback starts is [armed]. *)
Lemma bound_armed id cb st :
  publish_bound st ->
  callbacks st !! id = Some cb -> cb_called cb = false ->
  armed (with_asyncCalls (asyncCalls st - 1)
           (with_callbacks (<[id := fired cb]> (callbacks st)) st)).
Proof.
  intros (Hn & Hp & Ho & Hl) Hcb Hcalled.
  pose proof (pending_fired _ _ _ Hcb Hcalled) as Hpf.
  unfold armed, publishes, pending in *.
  cbn [asyncCalls callbacks effects asyncWait with_asyncCalls with_callbacks].
  rewrite Hpf in Hp, Hn. split; [lia|]. split; [|by split].
  destruct (asyncWait st); cbn in Hp; lia.
Qed.

Lemma inv_bound st : discovery_inv st -> publish_bound st.
Proof. intros (Hn & Hp & Ho & Hl). unfold publish_bound. by rewrite Hp. Qed.

Lemma armed_bound st : armed st -> publish_bound st.
Proof. intros (Hn & Hp & Ho & Hl). unfold publish_bound. rewrite Hp. split; [done|]. split; [lia|done]. Qed.

(** Whatever the callback does, the bound on publishing is kept. *)
Lemma discovered_bound id found st :
  publish_bound st -> publish_bound (fst (discovered id found st)).
Proof.
  intros Hb.
  destruct (discovered_cases id found st) as [(_ & -> & _)|(cb & t & Hcb & Hc & Ht & Hd)];
    [done|].
  cbv zeta in Hd. rewrite Hd.
  pose proof (bound_armed id cb st Hb Hcb Hc) as Ha.
  apply (quiet_armed _ _ (emit_all_quiet t _ Ht)) in Ha.
  destruct (completes found); cbn [fst].
  - apply inv_bound. by apply decide_publish.
  - by apply armed_bound.
Qed.

(** A callback that does not throw keeps the invariant. *)
Lemma discovered_inv id found st :
  discovery_inv st ->
  snd (discovered id found st) <> Some TypeError ->
  discovery_inv (fst (discovered id found st)).
Proof.
  intros Hinv.
  destruct (discovered_cases id found st) as [(_ & -> & _)|(cb & t & Hcb & Hc & Ht & Hd)];
    [done|].
  cbv zeta in Hd. rewrite Hd.
  pose proof (bound_armed id cb st (inv_bound st Hinv) Hcb Hc) as Ha.
  apply (quiet_armed _ _ (emit_all_quiet t _ Ht)) in Ha.
  destruct (completes found); cbn [fst snd]; [|done].
  intros _. by apply decide_publish.
Qed.

Lemma completes_no_TypeError id found st :
  completes found = true -> snd (discovered id found st) <> Some TypeError.
Proof.
  intros Hf.
  destruct (discovered_cases id found st) as [(_ & _ & H)|(cb & t & _ & _ & _ & ->)];
    [done|].
  by rewrite Hf.
Qed.

(** What [loadPlatformAccessories] returns, when it returns. *)
Lemma loadPlatformAccessories_Ok instance logger type st st' :
  loadPlatformAccessories instance logger type st = Ok st' ->
  let st1 := emit (Discover instance (length (callbacks st)))
               (with_callbacks
                  (callbacks st ++ [{| cb_logger := logger; cb_platformType := type;
                                       cb_called := false |}])
                  (with_asyncCalls (asyncCalls st + 1) st)) in
  match discovery instance with
  | Immediate found =>
      st' = fst (discovered (length (callbacks st)) found st1)
      /\ snd (discovered (length (callbacks st)) found st1) = None
  | Deferred => st' = st1
  end.
Proof.
  unfold loadPlatformAccessories. cbv zeta.
  cbn [callbacks with_asyncCalls].
  destruct (discovery instance) as [found|]; [|by intros [= <-]].
  destruct (discovered _ _ _) as [st2 [e|]]; [done|]. by intros [= <-].
Qed.

Lemma loadPlatformAccessories_frame instance logger type st st' :
  loadPlatformAccessories instance logger type st = Ok st' ->
  api st' = api st
  /\ config st' = config st
  /\ cachedPlatformAccessories st' = cachedPlatformAccessories st
  /\ activeDynamicPlugins st' = activeDynamicPlugins st
  /\ removeOrphans st' = removeOrphans st
  /\ asyncWait st' = asyncWait st.
Proof.
  intros H. apply loadPlatformAccessories_Ok in H. cbv zeta in H.
  destruct (discovery instance) as [found|]; [|by subst].
  destruct H as [-> _].
  match goal with |- context [discovered ?i ?f ?s] =>
    destruct (discovered_frame i f s) as (-> & -> & -> & -> & -> & ->) end.
  done.
Qed.

Lemma loadPlatformAccessories_armed instance logger type st st' :
  armed st -> asyncWait st = true ->
  loadPlatformAccessories instance logger type st = Ok st' ->
  armed st' /\ asyncWait st' = true.
Proof.
  intros (Hn & Hp & Ho & Hl) Hw Hok.
  pose proof (loadPlatformAccessories_frame _ _ _ _ _ Hok) as (_ & _ & _ & _ & _ & Hw').
  rewrite Hw in Hw'. split; [|done].
  apply loadPlatformAccessories_Ok in Hok. cbv zeta in Hok.
  match type of Hok with context [emit (Discover ?i ?n) ?s] =>
    set (st1 := emit (Discover i n) s) in * end.
  assert (Harmed : armed st1).
  { unfold armed, publishes, pending in *. subst st1.
    cbn [asyncCalls callbacks effects asyncWait with_asyncCalls with_callbacks emit].
    rewrite filter_app, length_app, count_app, count_one, Hp, Hw,
      publish_after_loading_app, Ho.
    cbn. rewrite decide_True by done. cbn. split; [lia|]. by split. }
  destruct (discovery instance) as [found|]; [|by subst].
  destruct Hok as [-> Hnone]. apply waiting_armed; [done|].
  apply discovered_inv; [by apply armed_waiting | by rewrite Hnone].
Qed.

Lemma loadPlatforms_armed l : forall st st',
  armed st -> asyncWait st = true ->
  loadPlatforms l st = Ok st' ->
  armed st' /\ asyncWait st' = true.
Proof.
  induction l as [|[o|] l IH]; intros st st' Ha Hw; cbn.
  - by intros [= <-].
  - destruct (platform o ≫= _) as [instance|].
    + destruct (configureAccessory instance); cbn.
      * apply IH.
        -- eapply quiet_armed; [|exact Ha].
           eapply (quiet_trans _ (emit (Construct instance) st));
             [by apply quiet_emit|].
           destruct (configurationRequestHandler instance);
             by apply quiet_fields_only.
        -- by destruct (configurationRequestHandler instance).
      * destruct (loadPlatformAccessories _ _ _ _) as [st1|] eqn:Hl; [|done].
        apply loadPlatformAccessories_armed in Hl as [Ha1 Hw1];
          [| by eapply quiet_armed; [apply quiet_emit|] | done].
        cbn. apply IH.
        -- eapply quiet_armed; [|exact Ha1].
           destruct (configurationRequestHandler instance);
             [by apply quiet_fields_only | apply quiet_refl].
        -- by destruct (configurationRequestHandler instance).
    + apply IH; [|done]. eapply quiet_armed; [by apply quiet_emit|done].
  - done.
Qed.

(** After [run], the invariant holds and the loading pass is over. *)
Lemma run_inv st0 st1 :
  callbacks st0 = [] -> no_publish (effects st0) ->
  run st0 = Ok st1 ->
  discovery_inv st1 /\ asyncWait st1 = false.
Proof.
  intros Hc He. unfold run.
  set (sta := with_asyncWait true (with_asyncCalls 0 st0)).
  assert (Ha : armed sta /\ asyncWait sta = true).
  { split; [|done]. unfold armed, publishes, pending. subst sta.
    cbn [asyncCalls callbacks effects asyncWait with_asyncCalls with_asyncWait].
    rewrite Hc, (no_publish_count _ He), (no_publish_after_loading _ _ He). done. }
  destruct Ha as [Ha Hw].
  destruct (match platforms (config sta) with
            | Some l => loadPlatforms l sta
            | None => Ok sta
            end) as [stb|] eqn:Hb; [|done].
  assert (armed stb /\ asyncWait stb = true) as [Hab Hwb].
  { destruct (platforms (config sta)); [by eapply loadPlatforms_armed|].
    by injection Hb as <-. }
  cbn [mbind result_bind].
  destruct (match accessories (config stb) with
            | Some l => loadAccessories l stb
            | None => Ok stb
            end) as [stc|] eqn:Hcc; [|done].
  assert (quiet stb stc) as Hq.
  { destruct (accessories (config stb)); [by eapply loadAccessories_quiet|].
    injection Hcc as <-. apply quiet_refl. }
  cbn [mbind result_bind].
  set (std := emit BridgeAddService
                (configCachedPlatformAccessories (loadDynamicPlatforms stc))).
  assert (quiet stb std) as Hqd.
  { eapply quiet_trans; [exact Hq|].
    eapply quiet_trans; [apply loadDynamicPlatforms_quiet|].
    eapply quiet_trans; [apply configCached_quiet|]. by apply quiet_emit. }
  set (ste := with_asyncWait false std).
  assert (armed ste) as Hae.
  { pose proof (quiet_armed _ _ Hqd Hab) as (Hn & Hp & Ho & Hl).
    unfold armed, publishes, pending in *. subst ste. cbn [asyncCalls callbacks effects asyncWait with_asyncWait].
    split; [done|]. split; [done|]. split; [done|]. intros _.
    subst std. cbn [effects emit]. unfold loaded. rewrite existsb_app. cbn.
    by rewrite orb_true_r. }
  pose proof (decide_publish ste Hae) as Hd.
  change (asyncWait ste) with false in Hd. cbn [negb] in Hd. rewrite andb_true_r in Hd.
  intros [= <-].
  match goal with |- context [emit _ (emit _ ?s)] => set (stf := s) in * end.
  assert (asyncWait stf = false) as Hwf.
  { subst stf. destruct (_ =? _)%Z; [|done].
    by rewrite (proj1 (proj2 (proj2 (publish_effects ste)))). }
  split; [|done].
  eapply quiet_inv; [|exact Hd]. quiet_step. by apply quiet_emit.
Qed.

Lemma deliver_wait st ev : asyncWait (deliver st ev) = asyncWait st.
Proof. unfold deliver. by destruct (discovered_frame (fst ev) (snd ev) st) as (_ & _ & _ & _ & _ & ->). Qed.

Lemma deliver_all_wait events : forall st,
  asyncWait (fold_left deliver events st) = asyncWait st.
Proof.
  induction events as [|ev events IH]; intros st; [done|].
  cbn. by rewrite IH, deliver_wait.
Qed.

(** Whatever is delivered, the bound on publishing is kept. *)
Lemma deliver_all_bound events : forall st,
  publish_bound st -> publish_bound (fold_left deliver events st).
Proof.
  induction events as [|ev events IH]; intros st Hb; [done|].
  cbn. apply IH. by apply discovered_bound.
Qed.

(** Callbacks that run to their publish test keep the invariant. *)
Lemma deliver_all_inv events : forall st,
  discovery_inv st ->
  (forall ev, In ev events -> completes (snd ev) = true) ->
  discovery_inv (fold_left deliver events st).
Proof.
  induction events as [|ev events IH]; intros st Hinv Hev; [done|].
  cbn. apply IH.
  - apply discovered_inv; [done|]. apply completes_no_TypeError. apply Hev. by left.
  - intros ev' Hin. apply Hev. by right.
Qed.

(** A callback's guard has fired after an event if it had before or the
    event is its own. *)
Lemma deliver_called st ev i :
  called (deliver st ev) i = called st i || Nat.eqb i (fst ev).
Proof.
  unfold deliver, called. rewrite discovered_callbacks.
  destruct (callbacks st !! fst ev) as [cb|] eqn:Hcb.
  - destruct (Nat.eqb_spec i (fst ev)) as [->|Hne].
    + rewrite list_lookup_insert_eq by (by eapply lookup_lt_Some).
      by rewrite orb_true_r.
    + rewrite list_lookup_insert_ne by done. by rewrite orb_false_r.
  - destruct (Nat.eqb_spec i (fst ev)) as [->|Hne];
      [by rewrite Hcb | by rewrite orb_false_r].
Qed.

Lemma deliver_all_called events : forall st i,
  called (fold_left deliver events st) i
  = called st i || existsb (Nat.eqb i) (map fst events).
Proof.
  induction events as [|ev events IH]; intros st i; cbn.
  - by rewrite orb_false_r.
  - by rewrite IH, deliver_called, orb_assoc.
Qed.

Lemma all_called_pending st :
  (forall i, (i < length (callbacks st))%nat -> called st i = true) -> pending st = 0%nat.
Proof.
  unfold called, pending. generalize (callbacks st). intros l.
  induction l as [|cb l IH]; intros H; [done|].
  rewrite filter_cons. specialize (H 0%nat) as H0. cbn in H0.
  rewrite decide_False by (rewrite H0; [done | lia]).
  apply IH. intros i Hi. apply (H (S i)). cbn. lia.
Qed.

Lemma uncalled_pending st i : called st i = false -> pending st <> 0%nat.
Proof.
  unfold called, pending. destruct (callbacks st !! i) as [cb|] eqn:Hcb; [|done].
  intros Hc Hz. apply length_zero_iff_nil in Hz.
  assert (cb ∈ filter (fun cb => cb_called cb = false) (callbacks st)) as Hin.
  { apply list_elem_of_filter. split; [done|]. by eapply list_elem_of_lookup_2. }
  rewrite Hz in Hin. by apply not_elem_of_nil in Hin.
Qed.

Lemma deliver_all_length events : forall st,
  length (callbacks (fold_left deliver events st)) = length (callbacks st).
Proof.
  induction events as [|ev events IH]; intros st; [done|]. cbn. rewrite IH.
  unfold deliver. rewrite discovered_callbacks.
  destruct (callbacks st !! fst ev); [by rewrite length_insert|done].
Qed.

(** A callback that throws publishes nothing. *)
Lemma deliver_throwing st ev :
  completes (snd ev) = false -> publishes (deliver st ev) = publishes st.
Proof.
  intros Hf. unfold deliver.
  destruct (discovered_cases (fst ev) (snd ev) st)
    as [(_ & -> & _)|(cb & t & _ & _ & Ht & ->)]; [done|].
  rewrite Hf. cbn [fst]. unfold publishes. rewrite emit_all_eq.
  cbn [effects with_asyncCalls with_callbacks].
  by rewrite count_app, (no_publish_count t Ht), Nat.add_0_r.
Qed.

(** Once every callback was invoked, none is pending. *)
Lemma all_invoked_pending events st :
  (forall id, (id < length (callbacks st))%nat -> In id (map fst events)) ->
  pending (fold_left deliver events st) = 0%nat.
Proof.
  intros Hall. apply all_called_pending.
  intros i Hi. rewrite deliver_all_length in Hi.
  rewrite deliver_all_called. apply orb_true_iff. right.
  apply existsb_exists. exists i. split; [by apply Hall | by apply Nat.eqb_refl].
Qed.

Lemma new_Server_fresh opts h st :
  new_Server opts h = Ok st -> callbacks st = [] /\ no_publish (effects st).
Proof.
  unfold new_Server. destruct (opt_config opts) as [c|].
  - intros [= <-]. split; [done|constructor].
  - destruct (loadConfig _ _) as [log r] eqn:Hl. destruct r as [c|]; [|done].
    intros [= <-]. split; [done|]. cbn.
    unfold loadConfig in Hl. destruct (host_configFile h) as [| | | |doc].
    + injection Hl as <- _. by repeat constructor.
    + injection Hl as <- _. by repeat constructor.
    + done.
    + done.
    + destruct (match ports doc with Some _ => _ | None => _ end) as [log0 c0] eqn:Hp.
      assert (no_publish log0).
      { destruct (ports doc) as [p|]; [destruct (start p >? end_ p)%Z|];
          injection Hp as <- _; by repeat constructor. }
      destruct (bridge c0) as [b|]; [|done].
      destruct (username_test _); injection Hl as <- _; [done|].
      apply Forall_app. split; [done | by repeat constructor].
Qed.

(** [loadPlatformAccessories] returns unless the platform calls back at
    once with an accessory that has neither service nor controller. *)
Lemma loadPlatformAccessories_returns instance logger type st :
  (forall found, discovery instance = Immediate found -> completes found = true) ->
  exists st', loadPlatformAccessories instance logger type st = Ok st'.
Proof.
  intros Hfound. unfold loadPlatformAccessories.
  destruct (discovery instance) as [found|]; [|by eauto].
  match goal with |- context [discovered ?i found ?s] =>
    pose proof (completes_no_TypeError i found s (Hfound found eq_refl)) as Hne;
    destruct (discovered_cases i found s) as [(Hc & _)|(cb & t & _ & _ & _ & Hd)] end.
  - exfalso. unfold called in Hc.
    cbn [callbacks emit with_callbacks with_asyncCalls] in Hc.
    rewrite lookup_app_r, Nat.sub_diag in Hc by done. done.
  - cbv zeta in Hd. rewrite Hd, (Hfound found eq_refl). by eauto.
Qed.

Lemma loadPlatforms_config l : forall st st',
  loadPlatforms l st = Ok st' -> config st' = config st /\ api st' = api st.
Proof.
  induction l as [|[o|] l IH]; intros st st'; cbn; [by intros [= <-]| |done].
  destruct (platform o ≫= _) as [instance|].
  - destruct (configureAccessory instance); cbn.
    + intros H. apply IH in H as [-> ->].
      by destruct (configurationRequestHandler instance).
    + destruct (loadPlatformAccessories _ _ _ _) as [st1|] eqn:Hl; [|done].
      cbn. intros H. apply IH in H as [-> ->].
      apply loadPlatformAccessories_frame in Hl as (Ha & Hc & _).
      destruct (configurationRequestHandler instance); cbn; by rewrite Ha, Hc.
  - intros H. by apply IH in H.
Qed.

(** [run] returns when every element of the configured lists is an object
    and no platform calls back at once with an accessory that has neither
    service nor controller. *)
Lemma loadPlatforms_returns l : forall st,
  Forall is_Some l -> immediate_complete (api st) ->
  exists st', loadPlatforms l st = Ok st'.
Proof.
  induction l as [|e l IH]; intros st Hl Hapi; [by eexists|].
  inversion Hl as [|? ? [o ->] Hl']; subst. cbn.
  destruct (platform o ≫= _) as [instance|] eqn:Hlook; [|by apply IH].
  assert (exists k, api_platform (api st) !! k = Some instance) as [k Hk].
  { destruct (platform o) as [k|]; [|done]. by exists k. }
  destruct (configureAccessory instance) eqn:Hdyn; cbn.
  - apply IH; [done|]. by destruct (configurationRequestHandler instance).
  - destruct (loadPlatformAccessories_returns instance
                (or_opt (entry_name o) (platform o)) (platform o)
                (emit (Construct instance) st)) as [st1 H1].
    { intros found Hf. by apply (Hapi k instance found). }
    rewrite H1. cbn. apply IH; [done|].
    apply loadPlatformAccessories_frame in H1 as (Ha & _).
    destruct (configurationRequestHandler instance); cbn; by rewrite Ha.
Qed.

Lemma loadAccessories_returns l : forall st,
  Forall is_Some l -> exists st', loadAccessories l st = Ok st'.
Proof.
  induction l as [|e l IH]; intros st Hl; [by eexists|].
  inversion Hl as [|? ? [o ->] Hl']; subst. cbn.
  destruct (accessory o ≫= _) as [instance|]; [|by apply IH].
  destruct (createAccessory _ _ _ _); by apply IH.
Qed.

Lemma run_returns st :
  Forall is_Some (default [] (platforms (config st))) ->
  Forall is_Some (default [] (accessories (config st))) ->
  immediate_complete (api st) ->
  exists st', run st = Ok st'.
Proof.
  intros Hp Ha Hapi. unfold run.
  set (sta := with_asyncWait true (with_asyncCalls 0 st)).
  assert (exists stb, match platforms (config sta) with
                      | Some l => loadPlatforms l sta
                      | None => Ok sta
                      end = Ok stb /\ config stb = config st) as (stb & -> & Hcb).
  { change (config sta) with (config st).
    destruct (platforms (config st)) as [l|]; [|by eauto].
    destruct (loadPlatforms_returns l sta Hp Hapi) as [stb Hb]. exists stb. split; [done|].
    by apply loadPlatforms_config in Hb as [? _]. }
  cbn [mbind result_bind]. rewrite Hcb.
  destruct (accessories (config st)) as [l|]; [|by eauto].
  destruct (loadAccessories_returns l stb Ha) as [stc ->]. by eauto.
Qed.

End PublishDecision.


(** ** The sample installation, run *)

Module SampleRuns.
Import Sample.

Lemma constructed_ok : new_Server options host = Ok constructed.
Proof. vm_compute. reflexivity. Qed.

Lemma launched_ok : run constructed = Ok launched.
Proof. vm_compute. reflexivity. Qed.




(** The cached camera has no platform in the sample; the server removes
    orphans. *)
Lemma orphan_kept_iff_policy_witness :
  In (IsPlatform camera) (cachedPlatformAccessories constructed)
  /\ orphan constructed camera
  /\ ~ In (IsPlatform camera)
       (cachedPlatformAccessories (configCachedPlatformAccessories constructed)).
Proof.
  assert (Hin : In (IsPlatform camera) (cachedPlatformAccessories constructed))
    by (by left).
  assert (Ho : orphan constructed camera) by (vm_compute; reflexivity).
  split; [exact Hin|]. split; [exact Ho|].
  intros H. apply (proj1 (orphan_kept_iff_policy constructed camera Hin Ho)) in H.
  discriminate H.
Defined.

(** The clone of the camera derives the camera's address and is rejected. *)
Lemma address_collision_rejected_witness :
  published_at (generateAddress digest (UUID camera_clone))
               (publishedAccessories with_camera) = Some camera
  /\ publishedAccessories (snd (publishExternalAccessory digest with_camera camera_clone))
     = publishedAccessories with_camera.
Proof.
  assert (H : published_at (generateAddress digest (UUID camera_clone))
                (publishedAccessories with_camera) = Some camera)
    by (vm_compute; reflexivity).
  split; [exact H|].
  exact (proj1 (proj2 (proj2
           (address_collision_rejected digest with_camera camera_clone camera H)))).
Defined.

(** Replacing [homebridge-demo.switch] in the sample's accessories. *)
Lemma replace_first_match_or_append_witness :
  exists st',
    handleNewConfig constructed (Some "accessory") (Some "homebridge-demo.switch")
      true new_switch_entry = Ok st'.
Proof.
  assert (H : Forall is_Some (default [] (accessories (config constructed)))).
  { cbn. by repeat constructor. }
  destruct (proj1 (replace_first_match_or_append constructed
                     "homebridge-demo.switch" new_switch_entry) H)
    as (st' & l' & Heq & _).
  exists st'. exact Heq.
Defined.

(** C6, as stated, fails: the list holds an element named exactly
    [homebridge-demo.switch], yet the element replaced is the earlier one,
    named [switch]. *)
Lemma exact_name_not_matched_first :
  exists st',
    handleNewConfig constructed (Some "accessory") (Some "homebridge-demo.switch")
      true new_switch_entry = Ok st'
    /\ accessories (config st') = Some [new_switch_entry; scoped_switch_entry]
    /\ spec_replace accessory "homebridge-demo.switch" new_switch_entry
         [switch_entry; scoped_switch_entry]
       = [switch_entry; new_switch_entry]
    /\ accessories (config st')
       <> Some (spec_replace accessory "homebridge-demo.switch" new_switch_entry
                  [switch_entry; scoped_switch_entry]).
Proof.
  eexists. split; [vm_compute; reflexivity|].
  split; [vm_compute; reflexivity|]. split; [vm_compute; reflexivity|].
  vm_compute. discriminate.
Qed.



(** C8. The claim fails on the code: for the valid document [{}], which
    has no [bridge] object, [loadConfig] throws a [TypeError] when it reads
    [config.bridge.username], and the constructor, hence startup, fails
    with it. *)
Theorem loadConfig_throws_without_bridge :
  loadConfig "/hoobs/etc/config.json" (Document empty_document) = ([], Throw TypeError)
  /\ new_Server options
       {| host_configPath := "/hoobs/etc/config.json";
          host_configFile := Document empty_document;
          host_cachedAccessories := None;
          host_api := host_api host;
          host_version := "3.3.0" |}
     = Throw TypeError.
Proof. split; reflexivity. Qed.

End SampleRuns.

(** * Further properties of the orchestrator *)

(** ** What [loadConfig] returns *)

Section LoadConfigResults.

Variable configPath : string.

(** A returned configuration has a [bridge] object with an accepted
    username, and its pool has passed the check of [start] and [end]. *)
Lemma loadConfig_result_checked (f : ConfigFile) (log : list effect) (c : Config) :
  loadConfig configPath f = (log, Ok c) ->
  exists b,
    bridge c = Some b
    /\ username_test (to_string (username b)) = true
    /\ checked_ports c = ports c.
Proof.
  destruct f as [| | | |doc]; cbn.
  - intros [= _ <-]. eexists. split; [reflexivity|]. by split.
  - intros [= _ <-]. eexists. split; [reflexivity|]. by split.
  - done.
  - done.
  - intros H.
    destruct (bridge doc) as [b|] eqn:Hb.
    + destruct (loadConfig_document configPath doc b Hb) as (log' & c' & Hl & Hp & Hb').
      unfold loadConfig in Hl. rewrite Hl in H. injection H as _ <-.
      eexists. split; [exact Hb'|]. split.
      * by destruct (username_test (to_string (username b))) eqn:Hu.
      * unfold checked_ports at 1. rewrite Hp. unfold checked_ports.
        destruct (ports doc) as [q|]; [|done].
        destruct (start q >? end_ q)%Z eqn:Hq; [done|]. cbn. by rewrite Hq.
    + exfalso.
      destruct (ports doc) as [q|]; [destruct (start q >? end_ q)%Z|];
        cbn in H; rewrite Hb in H; done.
Qed.


(** X2. A configuration that [loadConfig] returned is accepted as it is
    when it is loaded again: nothing is replaced and nothing is logged. *)
Theorem loadConfig_result_stable (f : ConfigFile) (log : list effect) (c : Config) :
  loadConfig configPath f = (log, Ok c) ->
  loadConfig configPath (Document c) = ([], Ok c).
Proof.
  intros H. destruct (loadConfig_result_checked f log c H) as (b & Hb & Hu & Hp).
  unfold loadConfig. unfold checked_ports in Hp.
  destruct (ports c) as [p|] eqn:Hpc.
  - destruct (start p >? end_ p)%Z; [done|]. by rewrite Hb, Hu.
  - by rewrite Hb, Hu.
Qed.

(** X3. [loadConfig] throws exactly for a document that is not an
    object, for an object whose [ports] member is [null], and for an object
    without a [bridge] object, and then it throws a [TypeError]; a missing
    or unparsable file never makes it throw. *)
Theorem loadConfig_throws_iff (f : ConfigFile) :
  ((exists log e, loadConfig configPath f = (log, Throw e))
   <-> (f = NotAnObject
        \/ (exists doc, f = PortsNull doc)
        \/ exists doc, f = Document doc /\ bridge doc = None))
  /\ (forall log e, loadConfig configPath f = (log, Throw e) -> e = TypeError).
Proof.
  split; [split|].
  - intros (log & e & H). destruct f as [| | |doc|doc]; cbn in H; try done;
      [by left | right; left; by exists doc |].
    right. right. exists doc. split; [done|].
    destruct (bridge doc) as [b|] eqn:Hb; [|done]. exfalso.
    destruct (loadConfig_document configPath doc b Hb) as (log' & c' & Hl & _).
    unfold loadConfig in Hl. rewrite Hl in H. done.
  - intros [-> | [(doc & ->) | (doc & -> & Hb)]]; [by eexists _, _ | by eexists _, _ |].
    cbn. destruct (ports doc) as [q|]; [destruct (start q >? end_ q)%Z|];
      cbn; rewrite Hb; by eexists _, _.
  - intros log e H. destruct f as [| | |doc|doc]; cbn in H; try done.
    + congruence.
    + congruence.
    + destruct (ports doc) as [q|]; [destruct (start q >? end_ q)%Z|];
        cbn in H; destruct (bridge doc); try destruct (username_test _);
        congruence.
Qed.

End LoadConfigResults.

(** ** The table of externally published accessories *)

Section PublishedTable.

Variable sha1_hex : string -> string.

Local Abbreviation publishOne := (publishExternalAccessory sha1_hex).
Local Abbreviation handlePublish := (handlePublishExternalAccessories sha1_hex).
Local Abbreviation address := (generateAddress sha1_hex).

Lemma published_at_None k (l : list (string * PlatformAccessory)) :
  published_at k l = None <-> ~ In k (map fst l).
Proof.
  induction l as [|[k' a] l IH]; cbn; [tauto|].
  case_bool_decide; [subst; split; [done | tauto]|].
  rewrite IH. tauto.
Qed.

Lemma published_at_snoc k k' a' (l : list (string * PlatformAccessory)) a :
  published_at k l = Some a -> published_at k (l ++ [(k', a')]) = Some a.
Proof.
  induction l as [|[k0 a0] l IH]; cbn; [done|]. by case_bool_decide.
Qed.

Lemma allocate_port_config st : config (snd (allocate_port st)) = config st.
Proof.
  unfold allocate_port. destruct (externalPorts st); [|done].
  destruct (nextExternalPort st) as [n|]; [|done]. by destruct (n >? _)%Z.
Qed.

Lemma allocate_port_effects st :
  exists t, effects (snd (allocate_port st)) = effects st ++ t
            /\ published_infos t = [] /\ unpublished_accessories t = [].
Proof.
  unfold allocate_port. destruct (externalPorts st);
    [|by exists []; rewrite app_nil_r].
  destruct (nextExternalPort st) as [n|]; [|by exists []; rewrite app_nil_r].
  destruct (n >? _)%Z; [by eexists [_] | by exists []; rewrite app_nil_r].
Qed.

(** One request: rejected, or entered in the table and published under
    its address, with the allocated port and the bridge's pin. *)
Lemma publishOne_cases st a :
  let st' := snd (publishOne st a) in
  config st' = config st
  /\ exists t,
       effects st' = effects st ++ t
       /\ unpublished_accessories t = []
       /\ match published_at (address (UUID a)) (publishedAccessories st) with
          | Some _ =>
              publishedAccessories st' = publishedAccessories st
              /\ published_infos t = []
          | None =>
              publishedAccessories st' = publishedAccessories st ++ [(address (UUID a), a)]
              /\ exists info,
                   published_infos t = [(a, info)]
                   /\ pub_username info = address (UUID a)
                   /\ pub_port info = fst (publishOne st a)
                   /\ pub_pincode info = or_else (bridge (config st) ≫= pin) default_pin
          end.
Proof.
  cbv zeta. unfold publishExternalAccessory.
  pose proof (allocate_port_config st) as Hc.
  destruct (allocate_port_pool st) as (_ & Hpub & _).
  destruct (allocate_port_effects st) as (t & Ht & Hti & Htu).
  destruct (allocate_port st) as [p st1]. cbn [snd] in *.
  rewrite Hpub.
  destruct (published_at _ (publishedAccessories st)) as [b|]; cbn.
  - split; [done|]. eexists. rewrite Ht, <- app_assoc. split; [reflexivity|].
    unfold published_infos, unpublished_accessories in *.
    rewrite !omap_app, Hti, Htu. by cbn.
  - split; [done|]. eexists. rewrite Ht, <- app_assoc. split; [reflexivity|].
    unfold published_infos, unpublished_accessories in *.
    rewrite !omap_app, Hti, Htu. cbn. split; [done|]. split; [done|].
    eexists. split; [reflexivity|]. cbn. by rewrite Hc.
Qed.

(** X4. Handling [publishExternalAccessories] never overwrites or removes
    an entry of the table of published accessories (the first publisher of
    an address stays), and keeps its addresses pairwise distinct. *)
Theorem published_table_grows (accessories : list PlatformAccessory) (st : Server) :
  NoDup (map fst (publishedAccessories st)) ->
  let st' := snd (handlePublishExternalAccessories sha1_hex st accessories) in
  NoDup (map fst (publishedAccessories st'))
  /\ (forall k a, published_at k (publishedAccessories st) = Some a ->
                  published_at k (publishedAccessories st') = Some a).
Proof.
  revert st. induction accessories as [|a l IH]; intros st Hnd; [done|].
  cbv zeta. cbn [handlePublishExternalAccessories].
  destruct (publishOne_cases st a) as (_ & t & _ & _ & Hcase).
  destruct (publishOne st a) as [p st1]. cbn [snd] in Hcase.
  specialize (IH st1). destruct (handlePublish st1 l) as [ps st2]. cbn [snd] in *.
  destruct (published_at _ (publishedAccessories st)) as [b|] eqn:Hb.
  - destruct Hcase as [Hpub _]. rewrite Hpub in IH. by apply IH.
  - destruct Hcase as [Hpub _].
    assert (NoDup (map fst (publishedAccessories st1))) as Hnd1.
    { rewrite Hpub, map_app. cbn. apply NoDup_app. split; [done|]. split.
      - intros k Hk Hin. apply list_elem_of_singleton in Hin. subst k.
        apply published_at_None in Hb. apply Hb. by apply list_elem_of_In.
      - apply NoDup_singleton. }
    destruct (IH Hnd1) as [Hnd2 Hkeep]. split; [done|].
    intros k a0 Hk. apply Hkeep. rewrite Hpub. by apply published_at_snoc.
Qed.

Lemma handlePublish_trace (accessories : list PlatformAccessory) : forall st,
  let st' := snd (handlePublish st accessories) in
  exists t,
    effects st' = effects st ++ t
    /\ unpublished_accessories t = []
    /\ map snd (publishedAccessories st')
       = map snd (publishedAccessories st) ++ map fst (published_infos t).
Proof.
  induction accessories as [|a l IH]; intros st; cbv zeta.
  - exists []. by rewrite !app_nil_r.
  - cbn [handlePublishExternalAccessories].
    destruct (publishOne_cases st a) as (_ & t & Ht & Htu & Hcase).
    destruct (publishOne st a) as [p st1]. cbn [snd] in *.
    specialize (IH st1). cbv zeta in IH.
    destruct (handlePublish st1 l) as [ps st2]. cbn [snd] in *.
    destruct IH as (u & Hu & Huu & Hpub2).
    exists (t ++ u). rewrite Hu, Ht, <- app_assoc. split; [done|].
    unfold unpublished_accessories, published_infos in *.
    rewrite !omap_app, Htu, Huu, Hpub2. split; [done|].
    destruct (published_at _ (publishedAccessories st)).
    + destruct Hcase as [-> ->]. done.
    + destruct Hcase as [-> (info & -> & _)].
      rewrite !map_app, <- app_assoc. done.
Qed.

Lemma unpublished_of_teardown (l : list (string * PlatformAccessory)) :
  unpublished_accessories (map (fun '(_, a) => AccessoryUnpublish a) l) = map snd l.
Proof. induction l as [|[k a] l IH]; [done|]. cbn. by rewrite <- IH. Qed.

(** X5. After [publishExternalAccessories] is handled, [teardown]
    unpublishes the accessories that were in the table before followed by
    those the handler published, each once and in the order of
    publication; a rejected accessory is not unpublished. *)
Theorem teardown_unpublishes_published
    (accessories : list PlatformAccessory) (st : Server) :
  let st' := snd (handlePublishExternalAccessories sha1_hex st accessories) in
  exists t u,
    effects st' = effects st ++ t
    /\ effects (teardown st') = effects st' ++ u
    /\ unpublished_accessories u
       = map snd (publishedAccessories st) ++ map fst (published_infos t).
Proof.
  cbv zeta. destruct (handlePublish_trace accessories st) as (t & Ht & _ & Hpub).
  exists t. eexists. split; [exact Ht|].
  unfold teardown, updateCachedAccessories.
  rewrite teardown_unpublish_effects. cbn [effects emit publishedAccessories].
  rewrite <- !app_assoc. split; [reflexivity|].
  unfold unpublished_accessories. rewrite !omap_app. cbn.
  fold (unpublished_accessories
          (map (fun '(_, a) => AccessoryUnpublish a)
               (publishedAccessories (snd (handlePublish st accessories))))).
  by rewrite unpublished_of_teardown.
Qed.

(** X6. When the addresses of the accessories of one
    [publishExternalAccessories] event are pairwise distinct and not yet
    published, every accessory is published, in order, under the address
    derived from its [UUID] and with the port allocated to it. *)
Theorem distinct_addresses_all_published
    (accessories : list PlatformAccessory) (st : Server) :
  NoDup (map (fun a => generateAddress sha1_hex (UUID a)) accessories) ->
  (forall a, In a accessories ->
     published_at (generateAddress sha1_hex (UUID a)) (publishedAccessories st) = None) ->
  let r := handlePublishExternalAccessories sha1_hex st accessories in
  exists t,
    effects (snd r) = effects st ++ t
    /\ map fst (published_infos t) = accessories
    /\ map (fun x => pub_username (snd x)) (published_infos t)
       = map (fun a => generateAddress sha1_hex (UUID a)) accessories
    /\ map (fun x => pub_port (snd x)) (published_infos t) = fst r.
Proof.
  revert st. induction accessories as [|a l IH]; intros st Hnd Hfree; cbv zeta.
  - exists []. by rewrite app_nil_r.
  - cbn [handlePublishExternalAccessories].
    destruct (publishOne_cases st a) as (_ & t & Ht & _ & Hcase).
    rewrite (Hfree a) in Hcase by (by left).
    destruct Hcase as (Hpub & info & Hinfo & Huser & Hport & _).
    destruct (publishOne st a) as [p st1]. cbn [fst snd] in *.
    inversion Hnd as [|? ? Hnotin Hnd']; subst.
    specialize (IH st1 Hnd'). cbv zeta in IH.
    destruct (handlePublish st1 l) as [ps st2]. cbn [fst snd] in *.
    destruct IH as (u & Hu & Hacc & Husers & Hports).
    { intros b Hb. rewrite Hpub. apply published_at_None.
      rewrite map_app. cbn [map fst]. intros Hin.
      apply in_app_iff in Hin as [Hin|[Heq|[]]].
      - specialize (Hfree b (or_intror Hb)). apply published_at_None in Hfree. done.
      - apply Hnotin. rewrite Heq.
        apply list_elem_of_In, in_map_iff. by exists b. }
    exists (t ++ u). rewrite Hu, Ht, <- app_assoc. split; [done|].
    unfold published_infos in *. rewrite omap_app, Hinfo. cbn.
    by rewrite Hacc, Husers, Hports, Huser.
Qed.

Lemma lower_hex_upper (c : ascii) :
  is_lower_hex c = true -> is_upper_hex (upper_ascii c) = true.
Proof.
  destruct c as [[] [] [] [] [] [] [] []]; vm_compute; congruence.
Qed.

(** X7. When the digest has twelve characters or more and they are
    hexadecimal digits as [digest("hex")] writes them (a SHA-1 digest has
    forty), the address of an external accessory passes the pattern that
    [loadConfig] demands of the bridge username. *)
Theorem generateAddress_is_username (data : string) :
  (12 <= String.length (sha1_hex data))%nat ->
  all_lower_hex (sha1_hex data) = true ->
  username_test (generateAddress sha1_hex data) = true.
Proof.
  intros Hlen Hhex. remember (sha1_hex data) as s eqn:E.
  do 12 (destruct s as [|? s]; [cbn in Hlen; lia|]).
  symmetry in E. rewrite (generateAddress_digest sha1_hex data _ _ _ _ _ _ _ _ _ _ _ _ _ E).
  cbn [all_lower_hex] in Hhex.
  do 12 (apply andb_true_iff in Hhex as [?%lower_hex_upper Hhex]).
  unfold username_test. cbn [hex_pairs_colon].
  repeat match goal with H : is_upper_hex _ = true |- _ => rewrite H end.
  cbn.
  repeat match goal with H : is_upper_hex _ = true |- _ => rewrite H end.
  reflexivity.
Qed.

End PublishedTable.

(** ** Registering and unregistering platform accessories *)

Section CacheHandlers.

Lemma register_loop_app (accessories : list PlatformAccessory) : forall hap cache,
  register_loop accessories hap cache
  = (hap ++ map Associated accessories, cache ++ map IsPlatform accessories).
Proof.
  induction accessories as [|a l IH]; intros hap cache; cbn.
  - by rewrite !app_nil_r.
  - by rewrite IH, <- !app_assoc.
Qed.

Lemma unregister_loop_fold (accessories : list PlatformAccessory) : forall hap cache,
  unregister_loop accessories hap cache
  = (hap ++ map Associated accessories,
     fold_left (fun cache a => splice_UUID (UUID a) cache) accessories cache).
Proof.
  induction accessories as [|a l IH]; intros hap cache; cbn.
  - by rewrite app_nil_r.
  - by rewrite IH, <- app_assoc.
Qed.

(** The cache a handler leaves does not depend on the engine. *)
Lemma handleRegister_cache st accessories rejected :
  cachedPlatformAccessories (fst (handleRegisterPlatformAccessories st accessories rejected))
  = cachedPlatformAccessories st ++ map IsPlatform accessories.
Proof.
  unfold handleRegisterPlatformAccessories. rewrite register_loop_app.
  by destruct rejected.
Qed.

Lemma handleUnregister_cache st accessories rejected :
  cachedPlatformAccessories (fst (handleUnregisterPlatformAccessories st accessories rejected))
  = fold_left (fun cache a => splice_UUID (UUID a) cache) accessories
      (cachedPlatformAccessories st).
Proof.
  unfold handleUnregisterPlatformAccessories. rewrite unregister_loop_fold.
  by destruct rejected.
Qed.

(** Without an element of that [UUID], nothing is spliced. *)
Lemma splice_UUID_absent uuid (cache : list cached) :
  (forall c, In c cache -> cached_UUID c <> Some uuid) ->
  splice_UUID uuid cache = cache.
Proof.
  induction cache as [|c l IH]; intros H; [done|]. cbn.
  assert (strict_eq (cached_UUID c) uuid = false) as ->.
  { specialize (H c (or_introl eq_refl)). unfold strict_eq.
    destruct (cached_UUID c) as [u|]; [|done].
    apply bool_decide_eq_false_2. congruence. }
  rewrite IH; [done|]. intros c' Hc'. apply H. by right.
Qed.

(** The first element of that [UUID] is the one spliced. *)
Lemma splice_UUID_first uuid (pre post : list cached) (b : PlatformAccessory) :
  UUID b = uuid ->
  (forall c, In c pre -> cached_UUID c <> Some uuid) ->
  splice_UUID uuid (pre ++ IsPlatform b :: post) = pre ++ post.
Proof.
  intros Hb. induction pre as [|c l IH]; intros H; cbn.
  - by rewrite Hb, bool_decide_eq_true_2.
  - assert (strict_eq (cached_UUID c) uuid = false) as ->.
    { specialize (H c (or_introl eq_refl)). unfold strict_eq.
      destruct (cached_UUID c) as [u|]; [|done].
      apply bool_decide_eq_false_2. congruence. }
    rewrite IH; [done|]. intros c' Hc'. apply H. by right.
Qed.

(** X9. Unregistering one accessory removes exactly the first cached
    accessory with its [UUID] (later ones with the same [UUID] stay); when
    no cached accessory has that [UUID] the cache is left as it is.  This
    holds whether or not the engine's call throws. *)
Theorem unregister_removes_first_match (st : Server) (a : PlatformAccessory)
    (rejected : bool) :
  let cache' := cachedPlatformAccessories
                  (fst (handleUnregisterPlatformAccessories st [a] rejected)) in
  (forall pre b post,
     cachedPlatformAccessories st = pre ++ IsPlatform b :: post ->
     UUID b = UUID a ->
     (forall c, In c pre -> cached_UUID c <> Some (UUID a)) ->
     cache' = pre ++ post)
  /\ ((forall c, In c (cachedPlatformAccessories st) -> cached_UUID c <> Some (UUID a)) ->
      cache' = cachedPlatformAccessories st).
Proof.
  cbv zeta. unfold handleUnregisterPlatformAccessories.
  cbn [unregister_loop]. destruct rejected; cbn; (split;
    [intros pre b post -> Hb Hpre; by apply splice_UUID_first
    |apply splice_UUID_absent]).
Qed.

Lemma splice_UUID_filter uuid (p : cached -> bool) (cache : list cached) :
  (forall c, cached_UUID c = Some uuid -> p c = false) ->
  List.filter p (splice_UUID uuid cache) = List.filter p cache.
Proof.
  intros Hp. induction cache as [|c l IH]; [done|]. cbn.
  destruct (strict_eq (cached_UUID c) uuid) eqn:Hc.
  - rewrite Hp; [done|]. unfold strict_eq in Hc.
    destruct (cached_UUID c) as [u|]; [|done].
    apply bool_decide_eq_true_1 in Hc. by subst.
  - cbn. by rewrite IH.
Qed.

Lemma splice_UUID_length uuid (cache : list cached) :
  (length cache <= S (length (splice_UUID uuid cache)))%nat.
Proof.
  induction cache as [|c l IH]; cbn; [lia|].
  destruct (strict_eq (cached_UUID c) uuid); cbn; lia.
Qed.

(** X10. Unregistering never touches a cached element whose [UUID] is
    none of the given ones (those elements stay, in their order), and it
    removes at most one element per given accessory, whether or not the
    engine's call throws. *)
Theorem unregister_spares_others (st : Server) (accessories : list PlatformAccessory)
    (rejected : bool) :
  let cache' := cachedPlatformAccessories
                  (fst (handleUnregisterPlatformAccessories st accessories rejected)) in
  List.filter (fun c => negb (has_UUID_of accessories c)) cache'
  = List.filter (fun c => negb (has_UUID_of accessories c)) (cachedPlatformAccessories st)
  /\ (length (cachedPlatformAccessories st) <= length cache' + length accessories)%nat.
Proof.
  cbv zeta. rewrite handleUnregister_cache.
  generalize (cachedPlatformAccessories st). intros cache.
  assert (forall l cache,
            (forall a, In a l -> In a accessories) ->
            List.filter (fun c => negb (has_UUID_of accessories c))
              (fold_left (fun cache a => splice_UUID (UUID a) cache) l cache)
            = List.filter (fun c => negb (has_UUID_of accessories c)) cache
            /\ (length cache
                <= length (fold_left (fun cache a => splice_UUID (UUID a) cache) l cache)
                   + length l)%nat) as H.
  { clear cache. induction l as [|a l IH]; intros cache Hsub; cbn; [split; [done|lia]|].
    destruct (IH (splice_UUID (UUID a) cache)) as [Hf Hl].
    { intros b Hb. apply Hsub. by right. }
    rewrite Hf. split.
    - apply splice_UUID_filter. intros c Hc. apply negb_false_iff.
      unfold has_UUID_of. apply existsb_exists. exists a.
      split; [apply Hsub; by left|]. rewrite Hc. cbn. by apply bool_decide_eq_true_2.
    - pose proof (splice_UUID_length (UUID a) cache). lia. }
  by apply H.
Qed.

(** X11. Registering accessories and then unregistering the same
    accessories restores the cache, provided no accessory cached before has
    the [UUID] of one of them, whether or not the engine's calls throw. *)
Theorem register_unregister_restores (st : Server) (accessories : list PlatformAccessory)
    (rejected rejected' : bool) :
  (forall a c, In a accessories -> In c (cachedPlatformAccessories st) ->
               cached_UUID c <> Some (UUID a)) ->
  let registered := fst (handleRegisterPlatformAccessories st accessories rejected) in
  cachedPlatformAccessories
    (fst (handleUnregisterPlatformAccessories registered accessories rejected'))
  = cachedPlatformAccessories st.
Proof.
  intros Hfresh. cbv zeta.
  rewrite handleUnregister_cache, handleRegister_cache.
  generalize dependent (cachedPlatformAccessories st). intros cache Hfresh.
  induction accessories as [|a l IH]; cbn; [by rewrite app_nil_r|].
  rewrite (splice_UUID_first (UUID a) cache (map IsPlatform l) a eq_refl).
  - apply IH. intros b c Hb Hc. apply Hfresh; [by right|done].
  - intros c Hc. apply Hfresh; [by left|done].
Qed.

End CacheHandlers.

(** ** Dynamic platforms the configuration does not name *)

Section DynamicPlatforms.

Lemma loadDynamicPlatforms_fold st :
  loadDynamicPlatforms st
  = fold_left loadDynamicPlatform (dynamicPlatforms (api st)) st.
Proof. reflexivity. Qed.

(** One step only adds, and only under the name of its platform. *)
Lemma loadDynamicPlatform_step st name instance :
  let st' := loadDynamicPlatform st (name, instance) in
  api st' = api st
  /\ cachedPlatformAccessories st' = cachedPlatformAccessories st
  /\ removeOrphans st' = removeOrphans st
  /\ (forall k i, activeDynamicPlugins st !! k = Some i ->
                  activeDynamicPlugins st' !! k = Some i)
  /\ covered (activeDynamicPlugins st') name
  /\ (covered (activeDynamicPlugins st) name -> st' = st).
Proof.
  cbv zeta. unfold loadDynamicPlatform, covered.
  destruct (activeDynamicPlugins st !! name) as [i0|] eqn:H1.
  { repeat split; try done; try (left; by eexists). }
  destruct (activeDynamicPlugins st !! to_string (split_dot_1 name)) as [i1|] eqn:H2.
  { repeat split; try done; try (right; by eexists). }
  assert (forall st0 : Server,
            activeDynamicPlugins
              (if configurationRequestHandler instance
               then with_configurable
                      (<[name := instance]> (configurablePlatformPlugins st0)) st0
               else st0) = activeDynamicPlugins st0) as Ha
    by (intros st0; by destruct (configurationRequestHandler instance)).
  split; [by destruct (configurationRequestHandler instance)|].
  split; [by destruct (configurationRequestHandler instance)|].
  split; [by destruct (configurationRequestHandler instance)|].
  rewrite Ha. cbn. split; [|split].
  - intros k i Hk. rewrite lookup_insert_ne; [done|]. intros ->. congruence.
  - left. rewrite lookup_insert_eq. by eexists.
  - intros [[? ?]|[? ?]]; congruence.
Qed.

Lemma loadDynamicPlatforms_steps l : forall st,
  let st' := fold_left loadDynamicPlatform l st in
  api st' = api st
  /\ cachedPlatformAccessories st' = cachedPlatformAccessories st
  /\ removeOrphans st' = removeOrphans st
  /\ (forall k i, activeDynamicPlugins st !! k = Some i ->
                  activeDynamicPlugins st' !! k = Some i)
  /\ (forall name instance, In (name, instance) l ->
                            covered (activeDynamicPlugins st') name).
Proof.
  induction l as [|[name instance] l IH]; intros st; cbv zeta; cbn [fold_left].
  - repeat split; done.
  - destruct (loadDynamicPlatform_step st name instance)
      as (Hapi & Hc & Hr & Hkeep & Hcov & _).
    destruct (IH (loadDynamicPlatform st (name, instance)))
      as (Hapi' & Hc' & Hr' & Hkeep' & Hcov').
    split; [congruence|]. split; [congruence|]. split; [congruence|].
    split; [by auto|].
    intros n i [[= <- <-]|Hin]; [|by eapply Hcov'].
    destruct Hcov as [[x Hx]|[x Hx]]; [left|right]; exists x; by apply Hkeep'.
Qed.

Lemma loadDynamicPlatforms_covered l : forall st,
  (forall name instance, In (name, instance) l ->
                         covered (activeDynamicPlugins st) name) ->
  fold_left loadDynamicPlatform l st = st.
Proof.
  induction l as [|[name instance] l IH]; intros st Hcov; [done|]. cbn [fold_left].
  destruct (loadDynamicPlatform_step st name instance) as (_ & _ & _ & _ & _ & ->).
  - apply IH. intros n i Hin. apply (Hcov n i). by right.
  - apply (Hcov name instance). by left.
Qed.

(** X12. [loadDynamicPlatforms] never replaces an instance that is
    already active, and running it a second time changes nothing: no
    platform is constructed twice. *)
Theorem loadDynamicPlatforms_idempotent (st : Server) :
  (forall k i, activeDynamicPlugins st !! k = Some i ->
               activeDynamicPlugins (loadDynamicPlatforms st) !! k = Some i)
  /\ loadDynamicPlatforms (loadDynamicPlatforms st) = loadDynamicPlatforms st.
Proof.
  destruct (loadDynamicPlatforms_steps (dynamicPlatforms (api st)) st)
    as (Hapi & _ & _ & Hkeep & Hcov).
  split; [exact Hkeep|].
  rewrite (loadDynamicPlatforms_fold (loadDynamicPlatforms st)).
  rewrite loadDynamicPlatforms_fold at 1. rewrite Hapi.
  apply loadDynamicPlatforms_covered. exact Hcov.
Qed.

Lemma after_dot_append p q :
  has_dot p = false -> after_dot (p +:+ "." +:+ q) = Some q.
Proof.
  induction p as [|c p IH]; [done|].
  change (String c p +:+ "." +:+ q) with (String c (p +:+ "." +:+ q)). cbn.
  destruct (Ascii.eqb c "."); [done|]. exact IH.
Qed.

Lemma upto_dot_no_dot q : has_dot q = false -> upto_dot q = q.
Proof.
  induction q as [|c q IH]; cbn; [done|].
  destruct (Ascii.eqb c "."); [done|]. intros H. by rewrite IH.
Qed.

(** X13. A cached accessory of a platform that a plugin registered as
    dynamic (under [plugin.platform], neither part containing a ["."]) has
    an instance once [loadDynamicPlatforms] has run, so reconciliation
    keeps it even when orphans are removed. *)
Theorem dynamic_platform_accessory_kept (st : Server) (a : PlatformAccessory)
    (plugin platform : string) (instance : PlatformInstance) :
  In (plugin +:+ "." +:+ platform, instance) (dynamicPlatforms (api st)) ->
  has_dot plugin = false ->
  has_dot platform = false ->
  associatedPlugin a = Some plugin ->
  associatedPlatform a = Some platform ->
  In (IsPlatform a) (cachedPlatformAccessories st) ->
  let st' := loadDynamicPlatforms st in
  (exists i, find_instance st' a = Some i)
  /\ In (IsPlatform a)
        (cachedPlatformAccessories (configCachedPlatformAccessories st')).
Proof.
  intros Hin Hp Hq Hap Haq Hc. cbv zeta.
  destruct (loadDynamicPlatforms_steps (dynamicPlatforms (api st)) st)
    as (_ & Hcache & _ & _ & Hcov).
  specialize (Hcov _ _ Hin). rewrite <- loadDynamicPlatforms_fold in Hcov, Hcache.
  assert (exists i, find_instance (loadDynamicPlatforms st) a = Some i) as [i Hi].
  { unfold find_instance. rewrite Hap, Haq. cbn [to_string].
    destruct Hcov as [[x Hx]|[x Hx]].
    - rewrite Hx. by eexists.
    - unfold split_dot_1 in Hx. rewrite after_dot_append in Hx by done.
      cbn in Hx. rewrite upto_dot_no_dot in Hx by done.
      destruct (activeDynamicPlugins (loadDynamicPlatforms st)
                  !! (plugin +:+ "." +:+ platform));
        [by eexists|]. rewrite Hx. by eexists. }
  split; [by exists i|].
  destruct (configCached_spec (loadDynamicPlatforms st)) as (-> & _ & _).
  apply filter_In. split; [by rewrite Hcache|].
  by rewrite find_instance_kept, Hi.
Qed.

End DynamicPlatforms.

(** ** More on the remote configuration channel *)

Section ApplyConfig.

Lemma replace_first_length key name targetName config l : forall l',
  replace_first key name targetName config l = Ok (Some l') ->
  length l' = length l.
Proof.
  induction l as [|e l IH]; intros l'; cbn; [done|].
  destruct e as [o|]; cbn; [|done].
  destruct (strict_eq (key o) name); [by intros [= <-]|].
  destruct (truthy targetName && _); [by intros [= <-]|].
  destruct (replace_first key name targetName config l) as [[l''|]|]; cbn; try done.
  intros [= <-]. cbn. by rewrite (IH l'').
Qed.

Lemma apply_config_length key l name replace config l' :
  apply_config key l name replace config = Ok l' ->
  (length (default [] l) <= length l' <= S (length (default [] l)))%nat
  /\ (replace = false -> l' = default [] l ++ [config]).
Proof.
  unfold apply_config. destruct replace; cbn.
  - destruct name as [name|]; cbn; [|done].
    destruct (replace_first _ _ _ _ _) as [[l''|]|] eqn:Hr; cbn; try done.
    + intros [= <-]. apply replace_first_length in Hr. split; [lia|done].
    + intros [= <-]. rewrite length_app. cbn. split; [lia|done].
  - intros [= <-]. rewrite length_app. cbn. split; [lia|done].
Qed.

(** X14. An apply of the remote configuration channel that returns has
    changed at most the list its [type] names: the bridge identity, the
    port pool, the plugin list, the mdns options and the other list are as
    before, and what is written to the configuration file is the
    configuration then in memory. *)
Theorem handleNewConfig_frame (st st' : Server) (type name : option string)
    (replace : bool) (body : entry) :
  handleNewConfig st type name replace body = Ok st' ->
  bridge (config st') = bridge (config st)
  /\ ports (config st') = ports (config st)
  /\ plugins (config st') = plugins (config st)
  /\ mdns (config st') = mdns (config st)
  /\ (type <> Some "accessory" -> accessories (config st') = accessories (config st))
  /\ (type <> Some "platform" -> platforms (config st') = platforms (config st))
  /\ effects st' = effects st ++ [ConfigWrite (config st')].
Proof.
  unfold handleNewConfig.
  destruct (strict_eq type "accessory") eqn:Ha.
  - destruct (apply_config accessory _ _ _ _) as [l|]; cbn; [|done].
    intros [= <-]. cbn. repeat split; try done.
    intros Hn. destruct type as [t|]; [|done]. cbn in Ha.
    apply bool_decide_eq_true_1 in Ha. congruence.
  - destruct (strict_eq type "platform") eqn:Hp.
    + destruct (apply_config platform _ _ _ _) as [l|]; cbn; [|done].
      intros [= <-]. cbn. repeat split; try done.
      intros Hn. destruct type as [t|]; [|done]. cbn in Hp.
      apply bool_decide_eq_true_1 in Hp. congruence.
    + intros [= <-]. by cbn.
Qed.

(** X15. An apply never removes an element: the list named by [type]
    keeps its length or grows by one, and without [replace] the body is
    always appended at its end. *)
Theorem handleNewConfig_never_shrinks (st st' : Server) (name : option string)
    (replace : bool) (body : entry) :
  (handleNewConfig st (Some "accessory") name replace body = Ok st' ->
   exists l',
     accessories (config st') = Some l'
     /\ (length (default [] (accessories (config st))) <= length l'
         <= S (length (default [] (accessories (config st)))))%nat
     /\ (replace = false -> l' = default [] (accessories (config st)) ++ [body]))
  /\ (handleNewConfig st (Some "platform") name replace body = Ok st' ->
      exists l',
        platforms (config st') = Some l'
        /\ (length (default [] (platforms (config st))) <= length l'
            <= S (length (default [] (platforms (config st)))))%nat
        /\ (replace = false -> l' = default [] (platforms (config st)) ++ [body])).
Proof.
  unfold handleNewConfig. cbn [strict_eq].
  rewrite (bool_decide_eq_true_2 ("accessory" = "accessory")) by done.
  rewrite (bool_decide_eq_false_2 ("platform" = "accessory")) by done.
  rewrite (bool_decide_eq_true_2 ("platform" = "platform")) by done.
  split.
  - destruct (apply_config accessory _ _ _ _) as [l|] eqn:Hl; cbn; [|done].
    intros [= <-]. exists l. split; [done|]. by apply apply_config_length in Hl.
  - destruct (apply_config platform _ _ _ _) as [l|] eqn:Hl; cbn; [|done].
    intros [= <-]. exists l. split; [done|]. by apply apply_config_length in Hl.
Qed.

Lemma replace_where_again (p : entry -> bool) config l : forall l',
  p config = true ->
  replace_where p config l = Some l' -> replace_where p config l' = Some l'.
Proof.
  induction l as [|e l IH]; intros l' Hp; cbn; [done|].
  destruct (p e) eqn:He.
  - intros [= <-]. cbn. by rewrite Hp.
  - destruct (replace_where p config l) as [l''|]; cbn; [|done].
    intros [= <-]. cbn. by rewrite He, (IH l'').
Qed.

Lemma replace_where_appended (p : entry -> bool) config l :
  p config = true ->
  replace_where p config l = None ->
  replace_where p config (l ++ [config]) = Some (l ++ [config]).
Proof.
  intros Hp. induction l as [|e l IH]; cbn; [by rewrite Hp|].
  destruct (p e); [done|].
  destruct (replace_where p config l); cbn; [done|]. intros _. by rewrite IH.
Qed.

Lemma replace_where_objects (p : entry -> bool) config l : forall l',
  is_Some config -> Forall is_Some l ->
  replace_where p config l = Some l' -> Forall is_Some l'.
Proof.
  induction l as [|e l IH]; intros l' Hc Hl; cbn; [done|].
  inversion Hl as [|? ? He Hl']; subst.
  destruct (p e); [intros [= <-]; by constructor|].
  destruct (replace_where p config l) as [l''|]; cbn; [|done].
  intros [= <-]. constructor; [done|]. by apply IH.
Qed.

(** Applying the same replacement again leaves the list as it is. *)
Lemma apply_config_again key l name body l1 :
  Forall is_Some (default [] l) -> is_Some body ->
  name_matches key name body = true ->
  apply_config key l (Some name) true body = Ok l1 ->
  apply_config key (Some l1) (Some name) true body = Ok l1.
Proof.
  intros Hl Hb Hm. unfold apply_config. cbn [negb prop id mbind result_bind default].
  rewrite replace_first_where by done. cbn [mbind result_bind].
  destruct (replace_where _ _ _) as [l'|] eqn:Hr; cbn [default]; intros [= <-].
  - rewrite replace_first_where by (by eapply replace_where_objects).
    cbn. by rewrite (replace_where_again _ _ _ _ Hm Hr).
  - rewrite replace_first_where.
    + cbn. by rewrite (replace_where_appended _ _ _ Hm Hr).
    + apply Forall_app. split; [done|]. by constructor.
Qed.

(** X16. A [replace] apply whose body carries the given name is
    idempotent (on lists of objects): applying it a second time returns
    and leaves the configuration as the first apply made it. *)
Theorem replace_apply_idempotent (st st1 : Server) (name : string) (o : ConfigObject) :
  (Forall is_Some (default [] (accessories (config st))) ->
   name_matches accessory name (Some o) = true ->
   handleNewConfig st (Some "accessory") (Some name) true (Some o) = Ok st1 ->
   exists st2,
     handleNewConfig st1 (Some "accessory") (Some name) true (Some o) = Ok st2
     /\ config st2 = config st1)
  /\ (Forall is_Some (default [] (platforms (config st))) ->
      name_matches platform name (Some o) = true ->
      handleNewConfig st (Some "platform") (Some name) true (Some o) = Ok st1 ->
      exists st2,
        handleNewConfig st1 (Some "platform") (Some name) true (Some o) = Ok st2
        /\ config st2 = config st1).
Proof.
  unfold handleNewConfig. cbn [strict_eq].
  rewrite (bool_decide_eq_true_2 ("accessory" = "accessory")) by done.
  rewrite (bool_decide_eq_false_2 ("platform" = "accessory")) by done.
  rewrite (bool_decide_eq_true_2 ("platform" = "platform")) by done.
  split; intros Hl Hm.
  - destruct (apply_config accessory _ _ _ _) as [l1|] eqn:H1;
      cbn [mbind result_bind]; [|done].
    intros [= <-].
    cbn [config with_config emit accessories platforms set_accessories set_platforms].
    rewrite (apply_config_again accessory _ name (Some o) l1 Hl (ltac:(by eexists)) Hm H1).
    cbn. by eexists.
  - destruct (apply_config platform _ _ _ _) as [l1|] eqn:H1;
      cbn [mbind result_bind]; [|done].
    intros [= <-].
    cbn [config with_config emit accessories platforms set_accessories set_platforms].
    rewrite (apply_config_again platform _ name (Some o) l1 Hl (ltac:(by eexists)) Hm H1).
    cbn. by eexists.
Qed.

End ApplyConfig.

(** ** Loading plugins *)

Section Plugins.

Lemma active_plugin_listed (l : list string) : forall (m : gmap string bool) k,
  fold_left (fun activePlugins n => <[n := true]> activePlugins) l m !! k = Some true
  <-> (In k l \/ m !! k = Some true).
Proof.
  induction l as [|n l IH]; intros m k; cbn; [tauto|].
  rewrite IH. destruct (decide (n = k)) as [->|Hne].
  - rewrite lookup_insert_eq. tauto.
  - rewrite lookup_insert_ne by done. intuition congruence.
Qed.

(** The test at the head of the loop body skips the plugins the list of
    active plugins does not name. *)
Lemma loadPlugin_skips c (p : Plugin) :
  match computeActivePluginList c with
  | Some m => negb (bool_decide (m !! plugin_name p = Some true))
  | None => false
  end
  = negb match plugins c with
         | Some l => bool_decide (plugin_name p ∈ l)
         | None => true
         end.
Proof.
  unfold computeActivePluginList. destruct (plugins c) as [l|]; cbn; [|done].
  f_equal. apply bool_decide_ext. rewrite active_plugin_listed, lookup_empty.
  rewrite list_elem_of_In. intuition congruence.
Qed.

Lemma loadPlugin_kept c acc (p : Plugin) :
  plugin_kept c p = true ->
  let r := loadPlugin (computeActivePluginList c) acc p in
  initialized r = initialized acc ++ [plugin_name p]
  /\ loaded_plugins r = <[plugin_name p := p]> (loaded_plugins acc)
  /\ foundOnePlugin r = true
  /\ exists e, plugin_log r = plugin_log acc ++ [e] /\ e <> Log Warn "No plugins found.".
Proof.
  unfold plugin_kept. intros H.
  apply andb_true_iff in H as [H Hload]. apply andb_true_iff in H as [Hallow Herr].
  apply bool_decide_eq_true_1 in Hload. apply negb_true_iff in Herr.
  cbv zeta. unfold loadPlugin. rewrite loadPlugin_skips, Hallow, Hload, Herr. cbn.
  do 3 (split; [done|]). by eexists.
Qed.

Lemma loadPlugin_dropped c acc (p : Plugin) :
  plugin_kept c p = false ->
  let r := loadPlugin (computeActivePluginList c) acc p in
  initialized r = initialized acc
  /\ loaded_plugins r = loaded_plugins acc
  /\ foundOnePlugin r = foundOnePlugin acc
  /\ exists t, plugin_log r = plugin_log acc ++ t
               /\ ~ In (Log Warn "No plugins found.") t.
Proof.
  unfold plugin_kept. intros H. cbv zeta. unfold loadPlugin. rewrite loadPlugin_skips.
  destruct (match plugins c with Some _ => _ | None => _ end); cbn in *.
  - destruct (load p) as [stack|]; cbn in *.
    + do 3 (split; [done|]). eexists. split; [reflexivity|].
      intros [?|[?|[]]]; done.
    + rewrite andb_true_r in H. apply negb_false_iff in H. rewrite H. cbn.
      do 3 (split; [done|]). exists []. split; [by rewrite app_nil_r | by intros []].
  - do 3 (split; [done|]). exists []. split; [by rewrite app_nil_r | by intros []].
Qed.

Lemma loadPlugins_loop c (installed : list Plugin) : forall acc,
  let r := fold_left (loadPlugin (computeActivePluginList c)) installed acc in
  initialized r
    = initialized acc ++ map plugin_name (List.filter (plugin_kept c) installed)
  /\ (forall n, is_Some (loaded_plugins r !! n)
                <-> is_Some (loaded_plugins acc !! n)
                    \/ In n (map plugin_name (List.filter (plugin_kept c) installed)))
  /\ foundOnePlugin r = foundOnePlugin acc || existsb (plugin_kept c) installed
  /\ (~ In (Log Warn "No plugins found.") (plugin_log acc) ->
      ~ In (Log Warn "No plugins found.") (plugin_log r)).
Proof.
  induction installed as [|p l IH]; intros acc; cbv zeta; cbn [fold_left List.filter existsb].
  - rewrite app_nil_r, orb_false_r. repeat split; try done; [tauto|by intros [?|[]]].
  - specialize (IH (loadPlugin (computeActivePluginList c) acc p)).
    cbv zeta in IH. destruct IH as (Hi & Hl & Hf & Hw).
    destruct (plugin_kept c p) eqn:Hk.
    + destruct (loadPlugin_kept c acc p Hk) as (Hi1 & Hl1 & Hf1 & e & He & Hne).
      rewrite Hi, Hi1, Hf, Hf1, orb_true_r. cbn [map]. rewrite <- app_assoc.
      split; [done|]. split; [|split; [done|]].
      * intros n. rewrite Hl, Hl1. cbn [In].
        destruct (decide (plugin_name p = n)) as [->|Hn].
        -- rewrite lookup_insert_eq. split; [by auto|]. intros _. left. by eexists.
        -- rewrite lookup_insert_ne by done. tauto.
      * intros Hnw. apply Hw. rewrite He. intros Hin.
        apply in_app_iff in Hin as [?|[?|[]]]; [done|]. by apply Hne.
    + destruct (loadPlugin_dropped c acc p Hk) as (Hi1 & Hl1 & Hf1 & t & Ht & Hnt).
      rewrite Hi, Hi1, Hf, Hf1. cbn [orb].
      split; [done|]. split; [|split; [done|]].
      * intros n. by rewrite Hl, Hl1.
      * intros Hnw. apply Hw. rewrite Ht. intros Hin.
        apply in_app_iff in Hin as [?|?]; done.
Qed.


End Plugins.

(** ** Signals and uncaught exceptions *)

Section CliEvents.

Lemma on_signal_terminating c s : terminating (on_signal c s) = true.
Proof. unfold on_signal. by destruct (terminating c) eqn:H. Qed.

(** Once terminating, events only log the uncaught exceptions. *)
Lemma cli_events_after_signal (events : list cli_event) : forall c sent,
  terminating c = true ->
  let r := fold_left cli_step events (c, sent) in
  terminating (fst r) = true
  /\ snd r = sent
  /\ effects (server (fst r)) = effects (server c) ++ exception_logs events
  /\ cachedPlatformAccessories (server (fst r)) = cachedPlatformAccessories (server c)
  /\ publishedAccessories (server (fst r)) = publishedAccessories (server c).
Proof.
  induction events as [|ev events IH]; intros c sent Hc; cbv zeta; cbn [fold_left].
  - by rewrite app_nil_r.
  - destruct ev as [s|stack]; cbn [cli_step fst snd].
    + unfold on_signal. rewrite Hc. by apply IH.
    + unfold on_uncaughtException. rewrite Hc, app_nil_r.
      edestruct IH as (Ht & Hs & He & Hca & Hp); [|rewrite Ht, Hs, He, Hca, Hp].
      * done.
      * cbn. by rewrite <- app_assoc.
Qed.

(** Before any signal, uncaught exceptions log, and each sends SIGTERM. *)
Lemma cli_exceptions_before_signal (stacks : list string) : forall c sent,
  terminating c = false ->
  let r := fold_left cli_step (map UncaughtException stacks) (c, sent) in
  terminating (fst r) = false
  /\ snd r = sent ++ map (fun _ => SIGTERM) stacks
  /\ effects (server (fst r)) = effects (server c) ++ map (Log Error) stacks
  /\ cachedPlatformAccessories (server (fst r)) = cachedPlatformAccessories (server c)
  /\ publishedAccessories (server (fst r)) = publishedAccessories (server c).
Proof.
  induction stacks as [|stack l IH]; intros c sent Hc; cbv zeta; cbn [fold_left map].
  - by rewrite !app_nil_r.
  - cbn [cli_step fst snd]. unfold on_uncaughtException. rewrite Hc.
    edestruct IH as (Ht & Hs & He & Hca & Hp); [|rewrite Ht, Hs, He, Hca, Hp].
    + done.
    + cbn. by rewrite <- !app_assoc.
Qed.

(** X18. In a sequence of events of the command line module, the uncaught
    exceptions before the first signal are logged and each sends SIGTERM to
    the process; the first signal runs the teardown sequence once; every
    later signal is ignored and every later uncaught exception is only
    logged, without a further signal. *)
Theorem exceptions_do_not_repeat_teardown (srv : Server) (stacks : list string)
    (s : signal) (later : list cli_event) :
  let r := fold_left cli_step
             (map UncaughtException stacks ++ Signal s :: later)
             (start_cli srv, []) in
  effects (server (fst r))
    = effects srv ++ map (Log Error) stacks ++ teardown_effects s srv
      ++ exception_logs later
  /\ snd r = map (fun _ => SIGTERM) stacks.
Proof.
  cbv zeta. rewrite fold_left_app. cbn [fold_left].
  destruct (cli_exceptions_before_signal stacks (start_cli srv) [] eq_refl)
    as (Ht & Hs & He & Hca & Hp).
  destruct (fold_left cli_step (map UncaughtException stacks) (start_cli srv, []))
    as [c sent]. cbn [fst snd] in *. cbn [cli_step fst snd].
  destruct (cli_events_after_signal later (on_signal c s) sent (on_signal_terminating c s))
    as (_ & -> & -> & _). split; [|done].
  unfold on_signal. rewrite Ht. cbn [server].
  unfold teardown, updateCachedAccessories, teardown_effects.
  cbn [effects emit]. rewrite teardown_unpublish_effects.
  cbn [effects emit cachedPlatformAccessories publishedAccessories].
  rewrite He, Hca, Hp. cbn. by rewrite <- !app_assoc.
Qed.

End CliEvents.

(** ** More on the publish decision *)

Section SynchronousDiscovery.

(** A platform that calls back before [accessories] returns leaves no
    closure outstanding. *)
Lemma loadPlatformAccessories_immediate instance logger type found st st' :
  discovery instance = Immediate found ->
  pending st = 0%nat ->
  loadPlatformAccessories instance logger type st = Ok st' ->
  pending st' = 0%nat.
Proof.
  intros Hd Hp H. apply loadPlatformAccessories_Ok in H. cbv zeta in H.
  rewrite Hd in H. destruct H as [-> _].
  unfold pending in *. rewrite discovered_callbacks.
  cbn [callbacks emit with_callbacks with_asyncCalls].
  rewrite lookup_app_r, Nat.sub_diag by done. cbn [lookup list_lookup].
  match goal with |- context [<[?i := fired ?cb]> ?l] =>
    pose proof (pending_fired l i cb) as Hf end.
  rewrite lookup_app_r, Nat.sub_diag in Hf by done.
  specialize (Hf eq_refl eq_refl).
  rewrite filter_app, length_app, Hp in Hf. cbn in Hf.
  rewrite decide_True in Hf by done. cbn in Hf. lia.
Qed.

Lemma loadPlatforms_immediate l : forall st st',
  (forall k instance, api_platform (api st) !! k = Some instance ->
     configureAccessory instance = false -> discovery instance <> Deferred) ->
  pending st = 0%nat ->
  loadPlatforms l st = Ok st' ->
  pending st' = 0%nat.
Proof.
  induction l as [|[o|] l IH]; intros st st' Hapi Hp; cbn; [by intros [= <-]| |done].
  destruct (platform o ≫= _) as [instance|] eqn:Hlook.
  - assert (exists k, api_platform (api st) !! k = Some instance) as [k Hk].
    { destruct (platform o) as [k|]; [|done]. by exists k. }
    destruct (configureAccessory instance) eqn:Hdyn; cbn.
    + apply IH; by destruct (configurationRequestHandler instance).
    + destruct (loadPlatformAccessories _ _ _ _) as [st1|] eqn:Hl; [|done].
      destruct (discovery instance) as [found|] eqn:Hd;
        [|by destruct (Hapi k instance Hk Hdyn)].
      pose proof (loadPlatformAccessories_frame _ _ _ _ _ Hl) as (Ha1 & _).
      apply (loadPlatformAccessories_immediate _ _ _ found) in Hl; [|done|done].
      cbn. apply IH.
      * destruct (configurationRequestHandler instance); cbn; by rewrite Ha1.
      * by destruct (configurationRequestHandler instance).
  - by apply IH.
Qed.

(** X19. When every configured platform that discovers accessories calls
    back before its [accessories] call returns, with accessories that have
    a service or a controller (or the configuration has no such platform),
    [run] returns, itself publishes the bridge, once, and leaves no
    discovery pending. *)
Theorem run_publishes_without_deferred (opts : Options) (h : Host) (st0 : Server) :
  new_Server opts h = Ok st0 ->
  Forall is_Some (default [] (platforms (config st0))) ->
  Forall is_Some (default [] (accessories (config st0))) ->
  (forall k instance, api_platform (api st0) !! k = Some instance ->
     configureAccessory instance = false ->
     exists found, discovery instance = Immediate found /\ completes found = true) ->
  exists st1,
    run st0 = Ok st1
    /\ publishes st1 = 1%nat /\ pending st1 = 0%nat /\ asyncCalls st1 = 0%Z.
Proof.
  intros Hnew Hpl Hac Hprompt.
  assert (immediate_complete (api st0)) as Hcomplete.
  { intros k instance found Hk Hdyn Hd.
    destruct (Hprompt k instance Hk Hdyn) as (found' & Hd' & Hf). congruence. }
  assert (forall k instance, api_platform (api st0) !! k = Some instance ->
            configureAccessory instance = false -> discovery instance <> Deferred) as Hapi.
  { intros k instance Hk Hdyn.
    destruct (Hprompt k instance Hk Hdyn) as (found & -> & _). done. }
  destruct (run_returns st0 Hpl Hac Hcomplete) as [st1 Hrun].
  exists st1. split; [done|].
  destruct (new_Server_fresh _ _ _ Hnew) as [Hc He].
  destruct (run_inv _ _ Hc He Hrun) as [(Hn & Hp & _) Hw].
  assert (pending st1 = 0%nat) as Hpend.
  { clear Hn Hp Hw. revert Hrun. unfold run.
    set (sta := with_asyncWait true (with_asyncCalls 0 st0)).
    assert (pending sta = 0%nat) as Hpa by (unfold pending; cbn; by rewrite Hc).
    destruct (match platforms (config sta) with
              | Some l => loadPlatforms l sta
              | None => Ok sta
              end) as [stb|] eqn:Hb; [|done].
    assert (pending stb = 0%nat) as Hpb.
    { destruct (platforms (config sta)); [|by injection Hb as <-].
      by apply loadPlatforms_immediate in Hb. }
    cbn [mbind result_bind].
    destruct (match accessories (config stb) with
              | Some l => loadAccessories l stb
              | None => Ok stb
              end) as [stc|] eqn:Hcc; [|done].
    assert (quiet stb stc) as Hq.
    { destruct (accessories (config stb)); [by eapply loadAccessories_quiet|].
      injection Hcc as <-. apply quiet_refl. }
    cbn [mbind result_bind]. intros [= <-].
    unfold pending in *. cbn [callbacks emit].
    match goal with |- context [if ?b then publish ?s else ?s] =>
      assert (callbacks (if b then publish s else s) = callbacks stb) as ->; [|done];
      assert (callbacks s = callbacks stb) as Hs end.
    { cbn [callbacks emit with_asyncWait].
      destruct (configCached_quiet (loadDynamicPlatforms stc)) as (-> & _).
      destruct (loadDynamicPlatforms_quiet stc) as (-> & _).
      by destruct Hq as (-> & _). }
    destruct (_ =? _)%Z; [|done]. by rewrite (proj1 (publish_effects _)). }
  rewrite Hw, Hpend in Hp. rewrite Hpend in Hn. by repeat split.
Qed.

(** X20. Invoking a discovery callback a second time changes nothing: the
    [once] guard stops it before the counter is decremented or any
    accessory is added, whatever accessories the second call carries. *)
Theorem second_callback_ignored (st : Server) (id : nat)
    (found found' : list AccessoryInstance) :
  deliver (deliver st (id, found)) (id, found') = deliver st (id, found).
Proof.
  pose proof (deliver_called st (id, found) id) as Hcalled.
  cbn [fst] in Hcalled. rewrite Nat.eqb_refl, orb_true_r in Hcalled.
  unfold called in Hcalled. unfold deliver at 1. unfold discovered. cbn [fst snd].
  destruct (callbacks (deliver st (id, found)) !! id) as [cb|]; [|done].
  by rewrite Hcalled.
Qed.

(** With nothing pending, an invoked callback is stopped by its guard. *)
Lemma deliver_idle st ev : pending st = 0%nat -> deliver st ev = st.
Proof.
  intros Hp. unfold deliver.
  destruct (discovered_cases (fst ev) (snd ev) st)
    as [(_ & H & _)|(cb & t & Hcb & Hc & _)]; [done|].
  exfalso. apply (uncalled_pending st (fst ev)); [|done].
  unfold called. by rewrite Hcb.
Qed.

(** X24. When the last outstanding discovery callback reports an accessory
    with neither service nor controller, it throws with the counter at zero
    and the bridge unpublished, and nothing delivered later publishes the
    bridge. *)
Theorem throwing_last_callback_never_publishes (opts : Options) (h : Host)
    (st0 st1 : Server) (events later : list (nat * list AccessoryInstance))
    (ev : nat * list AccessoryInstance) :
  new_Server opts h = Ok st0 ->
  run st0 = Ok st1 ->
  let st2 := fold_left deliver events st1 in
  called st2 (fst ev) = false ->
  pending st2 = 1%nat ->
  completes (snd ev) = false ->
  let st3 := fold_left deliver later (deliver st2 ev) in
  snd (discovered (fst ev) (snd ev) st2) = Some TypeError
  /\ pending st3 = 0%nat /\ asyncCalls st3 = 0%Z /\ publishes st3 = 0%nat.
Proof.
  intros Hnew Hrun st2 Hcalled Hpend Hthrow st3.
  destruct (new_Server_fresh _ _ _ Hnew) as [Hc He].
  destruct (run_inv _ _ Hc He Hrun) as [Hinv Hw].
  pose proof (deliver_all_bound events st1 (inv_bound _ Hinv)) as Hb2.
  fold st2 in Hb2.
  assert (publishes st2 = 0%nat) as Hp2.
  { destruct Hb2 as (_ & Hp & _). subst st2.
    rewrite deliver_all_wait, Hw, Hpend in Hp. cbn in Hp. lia. }
  assert (pending (deliver st2 ev) = 0%nat) as Hp3.
  { unfold called in Hcalled.
    destruct (callbacks st2 !! fst ev) as [cb|] eqn:Hcb; [|done].
    pose proof (pending_fired _ _ _ Hcb Hcalled) as Hpf.
    unfold pending in *. unfold deliver. rewrite discovered_callbacks, Hcb. lia. }
  assert (st3 = deliver st2 ev) as ->.
  { subst st3. induction later as [|ev' later IH]; [done|].
    cbn. by rewrite deliver_idle. }
  split.
  { destruct (discovered_cases (fst ev) (snd ev) st2)
      as [(Hc' & _)|(cb & t & _ & _ & _ & ->)]; [congruence|].
    by rewrite Hthrow. }
  split; [done|]. split.
  - destruct (discovered_bound (fst ev) (snd ev) st2 Hb2) as (Hn & _).
    fold (deliver st2 ev) in Hn. rewrite Hn, Hp3. done.
  - by rewrite deliver_throwing.
Qed.

(** X21. With a configuration that [loadConfig] returned, [publish]
    advertises the bridge once, under the username of the configuration
    (which passes the username pattern), and sets the serial number of the
    bridge to that same username. *)
Theorem publish_uses_loaded_username (configPath : string) (f : ConfigFile)
    (log : list effect) (st : Server) :
  loadConfig configPath f = (log, Ok (config st)) ->
  exists b info,
    bridge (config st) = Some b
    /\ bridge_publications (effects (publish st))
       = bridge_publications (effects st) ++ [info]
    /\ username b = Some (pub_username info)
    /\ username_test (pub_username info) = true
    /\ In (SetCharacteristic "SerialNumber" (Some (pub_username info)))
          (effects (publish st)).
Proof.
  intros H. destruct (loadConfig_result_checked configPath f log _ H) as (b & Hb & Hu & _).
  exists b. unfold publish. rewrite Hb. cbn.
  destruct (username b) as [[|c u]|] eqn:Hub; [done| |done].
  eexists. split; [done|]. rewrite <- !app_assoc. cbn.
  unfold bridge_publications. rewrite omap_app. cbn.
  split; [reflexivity|]. cbn. split; [done|]. split; [done|].
  apply in_app_iff. right. right. right. by left.
Qed.

End SynchronousDiscovery.

(** ** Ports of the published accessories *)

Section PublishedPorts.

Variable sha1_hex : string -> string.

(** A port taken from the pool moves the next port past it; the next port
    never moves back. *)
Lemma allocate_port_next st :
  let r := allocate_port st in
  externalPorts (snd r) = externalPorts st
  /\ (fst r = 0%Z
      \/ exists pool, externalPorts st = Some pool
                      /\ (default (start pool) (nextExternalPort st) <= fst r)%Z
                      /\ nextExternalPort (snd r) = Some (fst r + 1)%Z)
  /\ (forall pool, externalPorts st = Some pool ->
        (default (start pool) (nextExternalPort st)
         <= default (start pool) (nextExternalPort (snd r)))%Z).
Proof.
  cbv zeta. unfold allocate_port.
  destruct (externalPorts st) as [pool|] eqn:Hp;
    [|split; [done|]; split; [by left|done]].
  destruct (nextExternalPort st) as [next|] eqn:Hn; [destruct (next >? end_ pool)%Z|];
    cbn; rewrite ?Hp, ?Hn; (split; [done|]); split.
  - by left.
  - intros ? [= <-]. cbn. lia.
  - right. exists pool. split; [done|]. split; [cbn; lia|done].
  - intros ? [= <-]. cbn. lia.
  - right. exists pool. split; [done|]. split; [cbn; lia|done].
  - intros ? [= <-]. cbn. lia.
Qed.

(** Every port of an event is 0 or at least the next port of the pool. *)
Lemma ports_from_next accessories : forall st i p,
  fst (handlePublishExternalAccessories sha1_hex st accessories) !! i = Some p ->
  p = 0%Z
  \/ exists pool, externalPorts st = Some pool
                  /\ (default (start pool) (nextExternalPort st) <= p)%Z.
Proof.
  induction accessories as [|a l IH]; intros st i p; [done|].
  cbn [handlePublishExternalAccessories].
  destruct (publishExternalAccessory_port sha1_hex st a) as (Hf & He & Hn).
  destruct (allocate_port_next st) as (_ & Hfirst & Hmono).
  destruct (publishExternalAccessory sha1_hex st a) as [p0 st1]. cbn [fst snd] in *.
  specialize (IH st1).
  destruct (handlePublishExternalAccessories sha1_hex st1 l) as [ps st2].
  cbn [fst] in *. destruct i as [|i]; cbn.
  - intros [= <-]. rewrite Hf.
    destruct Hfirst as [->|(pool & Hp & Hle & _)]; [by left|].
    right. by exists pool.
  - intros Hi. apply IH in Hi as [->|(pool & Hp & Hle)]; [by left|].
    right. exists pool. rewrite He in Hp. split; [done|].
    specialize (Hmono pool Hp). rewrite Hn in Hle. lia.
Qed.

(** X22. Every accessory that one [publishExternalAccessories] event
    publishes is published with the port allocated at its own turn (the
    published pairs of accessory and port are, in order, among the pairs of
    the event's accessories and their ports), and no port of the pool is
    allocated twice: the port of a rejected accessory is skipped and is
    not handed to a later accessory. *)
Theorem published_ports_among_allocated
    (accessories : list PlatformAccessory) (st : Server) :
  let r := handlePublishExternalAccessories sha1_hex st accessories in
  exists t,
    effects (snd r) = effects st ++ t
    /\ sublist (map (fun x => (fst x, pub_port (snd x))) (published_infos t))
               (zip accessories (fst r))
    /\ (forall i j p, (i < j)%nat ->
          fst r !! i = Some p -> p <> 0%Z -> fst r !! j <> Some p).
Proof.
  revert st. induction accessories as [|a l IH]; intros st; cbv zeta.
  - exists []. rewrite app_nil_r. split; [done|]. split; [done|]. by intros [|i] j p.
  - cbn [handlePublishExternalAccessories].
    destruct (publishOne_cases sha1_hex st a) as (_ & t & Ht & _ & Hcase).
    destruct (publishExternalAccessory_port sha1_hex st a) as (Hf & He & Hn).
    destruct (allocate_port_next st) as (_ & Hfirst & _).
    pose proof (ports_from_next l (snd (publishExternalAccessory sha1_hex st a))) as Hlater.
    destruct (publishExternalAccessory sha1_hex st a) as [p0 st1]. cbn [fst snd] in *.
    specialize (IH st1). cbv zeta in IH.
    destruct (handlePublishExternalAccessories sha1_hex st1 l) as [ps st2].
    cbn [fst snd] in *. destruct IH as (u & Hu & Hpairs & Hfresh).
    exists (t ++ u). rewrite Hu, Ht, <- app_assoc. split; [done|]. split.
    + unfold published_infos in *. rewrite omap_app, map_app.
      destruct (published_at _ (publishedAccessories st)).
      * destruct Hcase as [_ ->]. cbn. by apply sublist_cons.
      * destruct Hcase as [_ (info & -> & _ & Hport & _)]. cbn. rewrite Hport.
        by apply sublist_skip.
    + intros [|i] [|j] p Hij; cbn; try lia.
      * intros [= <-] Hp0 Hj.
        destruct Hfirst as [H0|(pool & Hp & _ & Hnext)]; [by rewrite <- Hf in H0|].
        apply Hlater in Hj as [->|(pool' & Hp' & Hle)]; [done|].
        rewrite Hn, Hnext, <- Hf in Hle. cbn in Hle. lia.
      * apply Hfresh. lia.
Qed.

End PublishedPorts.

(** ** Configured dynamic platforms *)

Section ConfiguredDynamicPlatforms.

Lemma loadPlatforms_frame l : forall st st',
  loadPlatforms l st = Ok st' ->
  api st' = api st
  /\ cachedPlatformAccessories st' = cachedPlatformAccessories st
  /\ removeOrphans st' = removeOrphans st
  /\ (forall k, is_Some (activeDynamicPlugins st !! k) ->
                is_Some (activeDynamicPlugins st' !! k))
  /\ (forall o t instance,
        In (Some o) l -> platform o = Some t ->
        api_platform (api st) !! t = Some instance ->
        configureAccessory instance = true ->
        is_Some (activeDynamicPlugins st' !! t)).
Proof.
  induction l as [|[o|] l IH]; intros st st'; cbn [loadPlatforms prop mbind result_bind];
    [|cbn|done].
  - intros [= <-]. repeat split; done.
  - destruct (platform o ≫= _) as [instance|] eqn:Hlook.
    + destruct (configureAccessory instance) eqn:Hdyn; cbn.
      * intros H. apply IH in H as (Ha & Hc & Hr & Hk & Hd).
        destruct (configurationRequestHandler instance); cbn in Ha, Hc, Hr, Hk, Hd;
          (split; [done|]; split; [done|]; split; [done|]; split;
           [ intros k Hsome; apply Hk;
             destruct (decide (to_string (platform o) = k)) as [->|Hne];
             [rewrite lookup_insert_eq; by eexists | by rewrite lookup_insert_ne]
           | intros o' t i [[= <-]|Hin] Ht Hi Hc';
             [ apply Hk; rewrite Ht; cbn; rewrite lookup_insert_eq; by eexists
             | by apply (Hd o' t i Hin Ht) ] ]).
      * destruct (loadPlatformAccessories _ _ _ _) as [st1|] eqn:Hl; [|done].
        apply loadPlatformAccessories_frame in Hl as (Ha1 & _ & Hc1 & Hact1 & Hr1 & _).
        cbn in Ha1, Hc1, Hact1, Hr1.
        cbn. intros H. apply IH in H as (Ha & Hc & Hr & Hk & Hd).
        destruct (configurationRequestHandler instance); cbn in *.
        -- split; [congruence|]. split; [congruence|]. split; [congruence|].
           split; [intros k; rewrite <- Hact1; by apply Hk|].
           intros o' t i [[= <-]|Hin] Ht Hi Hc'.
           ++ rewrite Ht in Hlook. cbn in Hlook. congruence.
           ++ apply (Hd o' t i Hin Ht); [by rewrite Ha1|done].
        -- split; [congruence|]. split; [congruence|]. split; [congruence|].
           split; [intros k; rewrite <- Hact1; by apply Hk|].
           intros o' t i [[= <-]|Hin] Ht Hi Hc'.
           ++ rewrite Ht in Hlook. cbn in Hlook. congruence.
           ++ apply (Hd o' t i Hin Ht); [by rewrite Ha1|done].
    + intros H. apply IH in H as (Ha & Hc & Hr & Hk & Hd).
      repeat split; try done.
      intros o' t i [[= <-]|Hin] Ht Hi Hc'.
      * rewrite Ht in Hlook. cbn in Hlook. congruence.
      * by apply (Hd o' t i Hin Ht).
Qed.

Lemma loadAccessories_frame l : forall st st',
  loadAccessories l st = Ok st' ->
  api st' = api st
  /\ cachedPlatformAccessories st' = cachedPlatformAccessories st
  /\ removeOrphans st' = removeOrphans st
  /\ activeDynamicPlugins st' = activeDynamicPlugins st.
Proof.
  induction l as [|[o|] l IH]; intros st st'; cbn; [by intros [= <-]| |done].
  destruct (accessory o ≫= _) as [instance|].
  - destruct (createAccessory _ _ _ _); intros H; by apply IH in H.
  - intros H. by apply IH in H.
Qed.

(** X23. [run] keeps every cached accessory whose platform type is
    configured and is a dynamic platform of an installed plugin: the
    platform is instantiated before the cache is reconciled, so the
    accessory is not an orphan, even when orphans are removed. *)
Theorem configured_dynamic_platform_accessory_kept (st0 st1 : Server)
    (l : list entry) (o : ConfigObject) (t : string) (instance : PlatformInstance)
    (a : PlatformAccessory) :
  run st0 = Ok st1 ->
  platforms (config st0) = Some l ->
  In (Some o) l ->
  platform o = Some t ->
  api_platform (api st0) !! t = Some instance ->
  configureAccessory instance = true ->
  associatedPlatform a = Some t ->
  In (IsPlatform a) (cachedPlatformAccessories st0) ->
  In (IsPlatform a) (cachedPlatformAccessories st1).
Proof.
  intros Hrun Hl Ho Ht Hi Hdyn Ha Hin. revert Hrun. unfold run.
  set (sta := with_asyncWait true (with_asyncCalls 0 st0)).
  change (config sta) with (config st0). rewrite Hl.
  destruct (loadPlatforms l sta) as [stb|] eqn:Hb; [|done].
  apply loadPlatforms_frame in Hb as (Hapi & Hc & Hr & _ & Hact).
  specialize (Hact o t instance Ho Ht Hi Hdyn).
  cbn [mbind result_bind].
  destruct (match accessories (config stb) with
            | Some l => loadAccessories l stb
            | None => Ok stb
            end) as [stc|] eqn:Hcc; [|done].
  assert (cachedPlatformAccessories stc = cachedPlatformAccessories st0
          /\ activeDynamicPlugins stc = activeDynamicPlugins stb) as [Hcc1 Hcc2].
  { destruct (accessories (config stb)).
    - apply loadAccessories_frame in Hcc as (_ & -> & _ & ->). by split.
    - injection Hcc as <-. by split. }
  cbn [mbind result_bind]. intros [= <-].
  cbn [cachedPlatformAccessories emit with_asyncWait].
  match goal with |- context [if ?b then publish ?s else ?s] =>
    assert (cachedPlatformAccessories (if b then publish s else s)
            = cachedPlatformAccessories s) as -> by (by destruct b) end.
  cbn [cachedPlatformAccessories emit with_asyncWait].
  destruct (loadDynamicPlatforms_steps (dynamicPlatforms (api stc)) stc)
    as (_ & Hcd & _ & Hkeep & _).
  rewrite <- loadDynamicPlatforms_fold in Hcd, Hkeep.
  destruct (configCached_spec (loadDynamicPlatforms stc)) as (-> & _ & _).
  apply filter_In. split; [by rewrite Hcd, Hcc1|].
  rewrite find_instance_kept.
  assert (is_Some (activeDynamicPlugins (loadDynamicPlatforms stc) !! t)) as [x Hx].
  { rewrite <- Hcc2 in Hact. destruct Hact as [x Hx]. exists x. by apply Hkeep. }
  unfold find_instance. rewrite Ha. cbn [to_string].
  destruct (activeDynamicPlugins (loadDynamicPlatforms stc)
              !! (to_string (associatedPlugin a) +:+ "." +:+ t)); [done|].
  by rewrite Hx.
Qed.

End ConfiguredDynamicPlatforms.


(** ** The further properties on the sample data *)

Module MoreRuns.
Import Sample MoreSample.


Lemma loadConfig_result_stable_witness :
  loadConfig "/hoobs/etc/config.json" (Document repaired_document)
  = ([], Ok repaired_document).
Proof.
  apply (loadConfig_result_stable "/hoobs/etc/config.json"
           (Document lower_case_document)
           [Log Error ("Not a valid username: " +:+ dquote +:+ "aa:bb:cc:dd:ee:ff" +:+
                       dquote +:+ ".")]).
  reflexivity.
Defined.

Lemma published_table_grows_witness :
  published_at (generateAddress digest (UUID camera))
    (publishedAccessories
       (snd (handlePublishExternalAccessories digest with_camera
               [camera_clone; television])))
  = Some camera.
Proof.
  apply (proj2 (published_table_grows digest [camera_clone; television] with_camera
                  (NoDup_singleton _))).
  vm_compute. reflexivity.
Defined.

Lemma distinct_addresses_all_published_witness :
  exists t,
    effects (snd (handlePublishExternalAccessories digest constructed [camera; television]))
    = effects constructed ++ t
    /\ map fst (published_infos t) = [camera; television]
    /\ map (fun x => pub_username (snd x)) (published_infos t)
       = ["0C:9A:3C:5E:11:AA"; "5D:2E:8A:41:33:CC"]
    /\ map (fun x => pub_port (snd x)) (published_infos t) = [51000; 51001]%Z.
Proof.
  destruct (distinct_addresses_all_published digest [camera; television] constructed)
    as (t & Ht & Ha & Hu & Hp).
  - refine (bool_decide_unpack _ _). vm_compute. exact I.
  - intros a [<-|[<-|[]]]; vm_compute; reflexivity.
  - exists t. split; [exact Ht|]. split; [exact Ha|].
    split; [rewrite Hu | rewrite Hp]; vm_compute; reflexivity.
Defined.

Lemma generateAddress_is_username_witness :
  username_test (generateAddress digest (UUID camera)) = true.
Proof.
  apply (generateAddress_is_username digest (UUID camera)).
  - vm_compute. lia.
  - vm_compute. reflexivity.
Defined.

Lemma unregister_removes_first_match_witness :
  cachedPlatformAccessories
    (fst (handleUnregisterPlatformAccessories constructed [camera_clone] true))
  = [].
Proof.
  apply (proj1 (unregister_removes_first_match constructed camera_clone true)
           [] camera []).
  - reflexivity.
  - reflexivity.
  - intros c [].
Defined.

Lemma register_unregister_restores_witness :
  cachedPlatformAccessories
    (fst (handleUnregisterPlatformAccessories
            (fst (handleRegisterPlatformAccessories constructed [television; doorbell]
                    false))
            [television; doorbell] false))
  = cachedPlatformAccessories constructed.
Proof.
  apply (register_unregister_restores constructed [television; doorbell] false false).
  intros a c [<-|[<-|[]]] [<-|[]]; discriminate.
Defined.

Lemma dynamic_platform_accessory_kept_witness :
  removeOrphans dynamic_constructed = true
  /\ In (IsPlatform camera)
        (cachedPlatformAccessories
           (configCachedPlatformAccessories (loadDynamicPlatforms dynamic_constructed))).
Proof.
  split; [reflexivity|].
  apply (proj2 (dynamic_platform_accessory_kept dynamic_constructed camera
                  "homebridge-camera" "Camera" camera_platform
                  (or_introl eq_refl) eq_refl eq_refl eq_refl eq_refl
                  (or_introl eq_refl))).
Defined.

Lemma extended_ok :
  handleNewConfig constructed (Some "platform") None false lights_entry = Ok extended.
Proof. vm_compute. reflexivity. Qed.

Lemma replaced_ok :
  handleNewConfig constructed (Some "accessory") (Some "homebridge-demo.switch")
    true (Some new_switch) = Ok replaced.
Proof. vm_compute. reflexivity. Qed.

Lemma handleNewConfig_frame_witness :
  accessories (config extended) = accessories (config constructed)
  /\ effects extended = effects constructed ++ [ConfigWrite (config extended)].
Proof.
  destruct (handleNewConfig_frame constructed extended (Some "platform") None false
              lights_entry extended_ok) as (_ & _ & _ & _ & Ha & _ & He).
  split; [by apply Ha | exact He].
Defined.

Lemma handleNewConfig_never_shrinks_witness :
  platforms (config extended) = Some [lights_entry; lights_entry].
Proof.
  destruct (proj2 (handleNewConfig_never_shrinks constructed extended None false
                     lights_entry) extended_ok) as (l' & -> & _ & Hl).
  by rewrite (Hl eq_refl).
Defined.

Lemma replace_apply_idempotent_witness :
  exists st2,
    handleNewConfig replaced (Some "accessory") (Some "homebridge-demo.switch")
      true (Some new_switch) = Ok st2
    /\ config st2 = config replaced.
Proof.
  apply (proj1 (replace_apply_idempotent constructed replaced
                  "homebridge-demo.switch" new_switch)).
  - cbn. by repeat constructor.
  - vm_compute. reflexivity.
  - exact replaced_ok.
Defined.

Lemma prompt_constructed_ok : new_Server options prompt_host = Ok prompt_constructed.
Proof. vm_compute. reflexivity. Qed.

Lemma prompt_launched_ok : run prompt_constructed = Ok prompt_launched.
Proof. vm_compute. reflexivity. Qed.

Lemma run_publishes_without_deferred_witness :
  publishes prompt_launched = 1%nat
  /\ pending prompt_launched = 0%nat
  /\ asyncCalls prompt_launched = 0%Z.
Proof.
  destruct (run_publishes_without_deferred options prompt_host prompt_constructed
              prompt_constructed_ok) as (st1 & Hrun & H).
  - cbn. by repeat constructor.
  - cbn. by repeat constructor.
  - intros k instance Hk _.
    change (({[ "Lights" := prompt_lights ]} : gmap string PlatformInstance) !! k
            = Some instance) in Hk.
    apply lookup_singleton_Some in Hk as [_ <-]. by exists [bulb].
  - rewrite prompt_launched_ok in Hrun. injection Hrun as <-. exact H.
Defined.

(** The sample's one discovery callback, invoked with a bulb and an
    accessory without services: it throws, and the bridge stays
    unpublished. *)
Lemma throwing_last_callback_never_publishes_witness :
  snd (discovered 0 [bulb; bare] launched) = Some TypeError
  /\ pending (deliver launched (0%nat, [bulb; bare])) = 0%nat
  /\ asyncCalls (deliver launched (0%nat, [bulb; bare])) = 0%Z
  /\ publishes (deliver launched (0%nat, [bulb; bare])) = 0%nat.
Proof.
  apply (throwing_last_callback_never_publishes options host constructed launched
           [] [] (0%nat, [bulb; bare])).
  - vm_compute. reflexivity.
  - vm_compute. reflexivity.
  - vm_compute. reflexivity.
  - vm_compute. reflexivity.
  - reflexivity.
Defined.

(** A platform that calls back with such an accessory before
    [accessories] returns makes [run] throw. *)
Lemma run_throws_on_bare_accessory : run bare_constructed = Throw TypeError.
Proof. vm_compute. reflexivity. Qed.

Lemma publish_uses_loaded_username_witness :
  exists b info,
    bridge (config constructed) = Some b
    /\ bridge_publications (effects (publish constructed))
       = bridge_publications (effects constructed) ++ [info]
    /\ username b = Some (pub_username info)
    /\ username_test (pub_username info) = true
    /\ In (SetCharacteristic "SerialNumber" (Some (pub_username info)))
          (effects (publish constructed)).
Proof.
  apply (publish_uses_loaded_username "/hoobs/etc/config.json" (Document document) []
           constructed).
  reflexivity.
Defined.

Lemma configured_launched_ok : run configured_constructed = Ok configured_launched.
Proof. vm_compute. reflexivity. Qed.

Lemma configured_dynamic_platform_accessory_kept_witness :
  removeOrphans configured_constructed = true
  /\ In (IsPlatform camera) (cachedPlatformAccessories configured_launched).
Proof.
  split; [reflexivity|].
  apply (configured_dynamic_platform_accessory_kept configured_constructed
           configured_launched [Some camera_entry] camera_entry "Camera"
           camera_platform camera configured_launched_ok eq_refl (or_introl eq_refl)
           eq_refl).
  - change (({[ "Camera" := camera_platform ]} : gmap string PlatformInstance)
            !! "Camera" = Some camera_platform).
    apply lookup_singleton_eq.
  - reflexivity.
  - reflexivity.
  - by left.
Defined.

End MoreRuns.
